(** * Shallow embedding of the identity-resolution and aggregation core of
    citation-graph: [analyze_citations.py], [visualize_citations.py] and the
    merge step of [get_citations.py]. *)

From Stdlib Require Import List Ascii String Bool Arith Lia ZArith Sorted Permutation.
Import ListNotations.
Open Scope list_scope.

(** ** Python text

    A Python [str] is modelled as a list of characters drawn from the
    Latin-1 block (code points 0..255), one [ascii] value per code point.
    On this block Python's [str.lower], [str.split()] and [str.strip()]
    are written out below exactly. *)

Definition pystr := list ascii.

(** String literals of the source, as [pystr]. *)
Definition lit (s : string) : pystr := list_ascii_of_string s.

Definition sp : ascii := " "%char.

(** [str.lower] on one Latin-1 code point: A-Z and U+00C0..U+00DE except
    U+00D7 map 32 code points up; everything else is unchanged. *)
Definition lower_char (c : ascii) : ascii :=
  let n := nat_of_ascii c in
  if ((65 <=? n) && (n <=? 90)) || ((192 <=? n) && (n <=? 222) && negb (n =? 215))
  then ascii_of_nat (n + 32) else c.

Definition py_lower (s : pystr) : pystr := map lower_char s.

(** [str.isspace] on Latin-1: TAB..CR, U+001C..U+001F, space, U+0085, U+00A0. *)
Definition is_space (c : ascii) : bool :=
  let n := nat_of_ascii c in
  ((9 <=? n) && (n <=? 13)) || ((28 <=? n) && (n <=? 32)) || (n =? 133) || (n =? 160).

(** Cut a string at every whitespace character (the pieces may be empty). *)
Fixpoint split_on (s : pystr) : list pystr :=
  match s with
  | [] => [[]]
  | c :: s' =>
      let r := split_on s' in
      if is_space c then [] :: r
      else match r with
           | [] => [[c]]
           | w :: ws => (c :: w) :: ws
           end
  end.

Definition nonempty (w : pystr) : bool :=
  match w with [] => false | _ => true end.

(** [s.split()]: the maximal runs of non-whitespace characters. *)
Definition py_split (s : pystr) : list pystr := filter nonempty (split_on s).

(** [sep.join(ws)]. *)
Fixpoint py_join (sep : pystr) (ws : list pystr) : pystr :=
  match ws with
  | [] => []
  | [w] => w
  | w :: ws' => w ++ sep ++ py_join sep ws'
  end.

Fixpoint drop_ws (s : pystr) : pystr :=
  match s with
  | [] => []
  | c :: s' => if is_space c then drop_ws s' else s
  end.

(** [s.strip()]. *)
Definition py_strip (s : pystr) : pystr := rev (drop_ws (rev (drop_ws s))).

(** [s[:n]]. *)
Definition py_take (n : nat) (s : pystr) : pystr := firstn n s.

(** [s.replace(ch, " ")] for a one-character [ch]. *)
Definition replace_char (ch : ascii) (s : pystr) : pystr :=
  map (fun x => if ascii_dec x ch then sp else x) s.

(** [" ".join(s.split())]. *)
Definition collapse (s : pystr) : pystr := py_join [sp] (py_split s).

Definition truthy_str (s : pystr) : bool := nonempty s.

Definition str_eqb (a b : pystr) : bool :=
  if list_eq_dec ascii_dec a b then true else false.

(** Python's [<] on strings: lexicographic on code points. *)
Fixpoint str_ltb (a b : pystr) : bool :=
  match a, b with
  | _, [] => false
  | [], _ :: _ => true
  | x :: a', y :: b' =>
      let n := nat_of_ascii x in
      let m := nat_of_ascii y in
      (n <? m) || ((n =? m) && str_ltb a' b')
  end.

(** A Python [set] of strings, as the list of its members in insertion
    order; only membership and size are observed by the code. *)
Definition set_mem (k : pystr) (s : list pystr) : bool := existsb (str_eqb k) s.
Definition set_add (k : pystr) (s : list pystr) : list pystr :=
  if set_mem k s then s else s ++ [k].

(** ** Records

    A paper record is a JSON object whose fields may be absent.  Text
    fields hold a string; an absent field, a JSON [null] and the empty
    string are all falsy in the code and are represented by the empty
    [pystr] (the key derivation over arbitrary JSON values is modelled
    separately in module [Raw]).  [year] is [None] when absent or null. *)
Record PaperRecord := mkPaper {
  title : pystr;
  doi : pystr;
  arxiv_id : pystr;
  openalex_id : pystr;
  s2_id : pystr;
  authors : list pystr;
  year : option Z;
  venue : pystr;
  source : pystr
}.

Definition empty_paper : PaperRecord :=
  mkPaper [] [] [] [] [] [] None [] [].

(** One element of the [papers] list of the input document.  [metadata] is
    [None] when the value is falsy ([null], absent or the empty object). *)
Record Entry := mkEntry {
  input_doi : pystr;
  metadata : option PaperRecord;
  references : list PaperRecord;
  cited_by : list PaperRecord
}.

(** ** analyze_citations.py *)
Module Analyze.

(** The characters replaced by the punctuation loop of [normalize_title]:
    colon, hyphen, the straight single quote (twice) and the straight
    double quote (three times).  The list of the source also holds two
    three-code-point strings (U+00E2 U+20AC U+201C and U+00E2 U+20AC U+201D);
    they contain U+20AC, which lies outside the Latin-1 block, so they never
    occur in a modelled string and replacing them is the identity. *)
Definition punct : list ascii :=
  [":"%char; "-"%char; "'"%char; "'"%char; "034"%char; "034"%char; "034"%char].

Definition replace_punct (s : pystr) : pystr :=
  fold_left (fun acc ch => replace_char ch acc) punct s.

(** [normalize_title]. *)
Definition normalize_title (title : pystr) : pystr :=
  if negb (truthy_str title) then []
  else
    let normalized := py_lower title in
    let normalized := py_join [sp] (py_split normalized) in
    let normalized := replace_punct normalized in
    let normalized := py_join [sp] (py_split normalized) in
    py_take 150 (py_strip normalized).

Definition is_digit (c : ascii) : bool :=
  let n := nat_of_ascii c in (48 <=? n) && (n <=? 57).

Fixpoint span_digits (s : pystr) : pystr * pystr :=
  match s with
  | c :: s' => if is_digit c then let (d, r) := span_digits s' in (c :: d, r)
               else ([], s)
  | [] => ([], [])
  end.

Fixpoint strip_prefix (pre s : pystr) : option pystr :=
  match pre, s with
  | [], _ => Some s
  | p :: pre', c :: s' => if ascii_dec p c then strip_prefix pre' s' else None
  | _ :: _, [] => None
  end.

(** The pattern [10\.48550/arxiv\.(\d+\.\d+)] tried at the start of [s].
    Both [\d+] are greedy and a digit run is followed by a non-digit, so the
    only match takes the maximal digit runs; group 1 is returned. *)
Definition arxiv_match_at (s : pystr) : option pystr :=
  match strip_prefix (lit "10.48550/arxiv.") s with
  | None => None
  | Some rest =>
      match span_digits rest with
      | ((_ :: _) as d1, c :: r1) =>
          if ascii_dec c "."%char then
            match span_digits r1 with
            | ((_ :: _) as d2, _) => Some (d1 ++ ["."%char] ++ d2)
            | _ => None
            end
          else None
      | _ => None
      end
  end.

(** [re.search]: the leftmost position where the pattern matches. *)
Fixpoint arxiv_search (s : pystr) : option pystr :=
  match s with
  | [] => arxiv_match_at []
  | _ :: s' =>
      match arxiv_match_at s with
      | Some g => Some g
      | None => arxiv_search s'
      end
  end.

(** [extract_arxiv_id_from_doi]. *)
Definition extract_arxiv_id_from_doi (doi : pystr) : option pystr :=
  if negb (truthy_str doi) then None
  else arxiv_search (py_lower doi).

Definition truthy_opt (o : option pystr) : bool :=
  match o with Some s => truthy_str s | None => false end.

Definition odflt (o : option pystr) : pystr :=
  match o with Some s => s | None => [] end.

(** [get_paper_key]; [None] is the Python [None].  Each [if] of the source
    that returns is one branch; falling through is the [else]. *)
Definition get_paper_key (paper : PaperRecord) : option pystr :=
  let t := title paper in
  let normalized := normalize_title t in
  if truthy_str t && truthy_str normalized then Some (lit "title:" ++ normalized)
  else
    let d := doi paper in
    let a := arxiv_id paper in
    let arxiv_from_doi := extract_arxiv_id_from_doi d in
    if truthy_opt arxiv_from_doi then Some (lit "arxiv:" ++ odflt arxiv_from_doi)
    else if truthy_str a then Some (lit "arxiv:" ++ py_lower a)
    else if truthy_str d then Some (lit "doi:" ++ py_lower d)
    else if truthy_str (openalex_id paper) then
      Some (lit "openalex:" ++ py_lower (openalex_id paper))
    else if truthy_str (s2_id paper) then
      Some (lit "s2:" ++ py_lower (s2_id paper))
    else None.

(** [get_seed_paper_label]. *)
Definition get_seed_paper_label (paper : Entry) : pystr :=
  let t := match metadata paper with
           | Some m => if truthy_str (title m) then title m else lit "Unknown"
           | None => lit "Unknown"
           end in
  if 60 <? List.length t then py_take 57 t ++ lit "..." else t.

(** The [{"doi": ..., "title": ...}] objects naming a contributing seed. *)
Record SeedRef := mkSeedRef { sr_doi : pystr; sr_title : pystr }.

(** The seed set [seed_keys] (the [seed_by_key] dictionary built by the same
    loop is never read). *)
Definition seed_keys (papers : list Entry) : list pystr :=
  fold_left
    (fun acc paper =>
       match metadata paper with
       | Some m => match get_paper_key m with
                   | Some key => set_add key acc
                   | None => acc
                   end
       | None => acc
       end) papers [].

(** The [defaultdict] index in insertion order: key, stored metadata, and
    the list of contributing seeds. *)
Definition Index := list (pystr * (PaperRecord * list SeedRef)).

(** [index[key]["metadata"]] is set on first sight (it is [None] only for a
    fresh entry) and [sr] is appended to the list. *)
Fixpoint index_add (key : pystr) (r : PaperRecord) (sr : SeedRef) (idx : Index)
  : Index :=
  match idx with
  | [] => [(key, (r, [sr]))]
  | (k, (m, l)) :: rest =>
      if str_eqb k key then (k, (m, l ++ [sr])) :: rest
      else (k, (m, l)) :: index_add key r sr rest
  end.

(** The loop building [references_index] (with [rel := references]) or
    [citing_index] (with [rel := cited_by]). *)
Definition build_index (rel : Entry -> list PaperRecord) (papers : list Entry)
  : Index :=
  fold_left
    (fun idx paper =>
       match metadata paper with
       | None => idx
       | Some _ =>
           let sr := mkSeedRef (input_doi paper) (get_seed_paper_label paper) in
           fold_left
             (fun idx r => match get_paper_key r with
                           | Some key => index_add key r sr idx
                           | None => idx
                           end) (rel paper) idx
       end) papers [].

(** One element of the result lists: [c_in] with [cited_by_seed_papers],
    or [c_out] with [cites_seed_papers]. *)
Record AggEntry := mkAgg {
  ae_key : pystr;
  ae_doi : pystr;
  ae_arxiv_id : pystr;
  ae_title : pystr;
  ae_authors : list pystr;
  ae_year : option Z;
  ae_venue : pystr;
  ae_count : nat;
  ae_seeds : list SeedRef;
  ae_is_in_seed_set : bool
}.

(** The filtering loop over an index. *)
Definition filter_index (idx : Index) (seeds : list pystr) (k : Z)
  : list AggEntry :=
  flat_map
    (fun '(key, (m, l)) =>
       if set_mem key seeds then []
       else
         let c := List.length l in
         if (k <=? Z.of_nat c)%Z then
           [mkAgg key (doi m) (arxiv_id m) (title m) (authors m) (year m)
                  (venue m) c l (set_mem key seeds)]
         else []) idx.

(** The sort key [(-count, title)]. *)
Definition agg_ltb (a b : AggEntry) : bool :=
  (ae_count b <? ae_count a)
  || ((ae_count a =? ae_count b) && str_ltb (ae_title a) (ae_title b)).

Fixpoint insert_sorted (x : AggEntry) (l : list AggEntry) : list AggEntry :=
  match l with
  | [] => [x]
  | y :: ys => if agg_ltb x y then x :: y :: ys else y :: insert_sorted x ys
  end.

(** [list.sort(key=...)]: a stable sort, as insertion sort. *)
Definition sort_entries (l : list AggEntry) : list AggEntry :=
  fold_left (fun acc x => insert_sorted x acc) l [].

(** [analyze_citations]: the pair [(cited_papers, citing_papers)]. *)
Definition analyze_citations (papers : list Entry) (k_cited k_citing : Z)
  : list AggEntry * list AggEntry :=
  let seeds := seed_keys papers in
  let references_index := build_index references papers in
  let cited_papers := sort_entries (filter_index references_index seeds k_cited) in
  let citing_index := build_index cited_by papers in
  let citing_papers := sort_entries (filter_index citing_index seeds k_citing) in
  (cited_papers, citing_papers).

End Analyze.

(** ** visualize_citations.py *)
Module Visualize.

(** [get_paper_key] of the visualization script. *)
Definition get_paper_key (paper : PaperRecord) : option pystr :=
  if truthy_str (doi paper) then Some (lit "doi:" ++ py_lower (doi paper))
  else if truthy_str (arxiv_id paper) then
    Some (lit "arxiv:" ++ py_lower (arxiv_id paper))
  else if truthy_str (openalex_id paper) then
    Some (lit "openalex:" ++ py_lower (openalex_id paper))
  else if truthy_str (s2_id paper) then
    Some (lit "s2:" ++ py_lower (s2_id paper))
  else if truthy_str (title paper) then
    Some (lit "title:" ++ py_take 100 (py_lower (title paper)))
  else None.

(** A node of one of the three partitions; [n_count] is [c_in] or [c_out]
    and is absent for seed nodes. *)
Record Node := mkNode {
  n_key : pystr;
  n_title : pystr;
  n_authors : list pystr;
  n_year : option Z;
  n_venue : pystr;
  n_count : option nat
}.

(** A Python dict in insertion order; assignment to an existing key keeps
    its position and replaces its value. *)
Fixpoint dict_set {V} (k : pystr) (v : V) (d : list (pystr * V)) : list (pystr * V) :=
  match d with
  | [] => [(k, v)]
  | (k', v') :: rest =>
      if str_eqb k' k then (k', v) :: rest else (k', v') :: dict_set k v rest
  end.

Definition dict_mem {V} (k : pystr) (d : list (pystr * V)) : bool :=
  existsb (fun kv => str_eqb (fst kv) k) d.

(** The seed-set loop building [seed_papers]. *)
Definition seed_papers (papers : list Entry) : list (pystr * Node) :=
  fold_left
    (fun acc paper =>
       match metadata paper with
       | Some m =>
           match get_paper_key m with
           | Some key =>
               dict_set key (mkNode key (title m) (authors m) (year m) (venue m) None) acc
           | None => acc
           end
       | None => acc
       end) papers [].

(** Index of one direction: key, stored metadata, set of seed keys. *)
Definition VIndex := list (pystr * (PaperRecord * list pystr)).

Fixpoint vindex_add (key : pystr) (r : PaperRecord) (seed_key : pystr) (idx : VIndex)
  : VIndex :=
  match idx with
  | [] => [(key, (r, [seed_key]))]
  | (k, (m, s)) :: rest =>
      if str_eqb k key then (k, (m, set_add seed_key s)) :: rest
      else (k, (m, s)) :: vindex_add key r seed_key rest
  end.

Definition Edge := (pystr * pystr * pystr)%type.

Record LoopState := mkLoop {
  ls_refs : VIndex;
  ls_citing : VIndex;
  ls_edges : list Edge
}.

Definition cites := lit "cites".

(** The body of the main loop for one element of [papers]. *)
Definition process_paper (st : LoopState) (paper : Entry) : LoopState :=
  let seed_key := match metadata paper with
                  | Some m => get_paper_key m
                  | None => None
                  end in
  match seed_key with
  | None => st
  | Some seed_key =>
      let st :=
        fold_left
          (fun st r =>
             match get_paper_key r with
             | None => st
             | Some ref_key =>
                 mkLoop (vindex_add ref_key r seed_key (ls_refs st)) (ls_citing st)
                        (ls_edges st ++ [(seed_key, ref_key, cites)])
             end) (references paper) st in
      fold_left
        (fun st c =>
           match get_paper_key c with
           | None => st
           | Some citing_key =>
               mkLoop (ls_refs st) (vindex_add citing_key c seed_key (ls_citing st))
                      (ls_edges st ++ [(citing_key, seed_key, cites)])
           end) (cited_by paper) st
  end.

(** The threshold loops building [cited_papers] and [citing_papers]. *)
Definition threshold (idx : VIndex) (seeds : list (pystr * Node)) (k : Z)
  : list (pystr * Node) :=
  fold_left
    (fun acc '(key, (m, s)) =>
       let c := List.length s in
       if (k <=? Z.of_nat c)%Z && negb (dict_mem key seeds) then
         dict_set key (mkNode key (title m) (authors m) (year m) (venue m) (Some c)) acc
       else acc) idx [].

Definition edge_eqb (e1 e2 : Edge) : bool :=
  let '(a1, b1, c1) := e1 in
  let '(a2, b2, c2) := e2 in
  str_eqb a1 a2 && str_eqb b1 b2 && str_eqb c1 c2.

(** [list(set(edges))]: each distinct triple once.  The iteration order of
    a Python [set] is not specified; first occurrences are kept here. *)
Fixpoint dedup_edges (l : list Edge) : list Edge :=
  match l with
  | [] => []
  | e :: rest => e :: filter (fun e' => negb (edge_eqb e e')) (dedup_edges rest)
  end.

Record Graph := mkGraph {
  g_seed_papers : list (pystr * Node);
  g_cited_papers : list (pystr * Node);
  g_citing_papers : list (pystr * Node);
  g_edges : list Edge
}.

(** [analyze_for_graph]. *)
Definition analyze_for_graph (papers : list Entry) (k_cited k_citing : Z) : Graph :=
  let seeds := seed_papers papers in
  let st := fold_left process_paper papers (mkLoop [] [] []) in
  let cited_papers := threshold (ls_refs st) seeds k_cited in
  let citing_papers := threshold (ls_citing st) seeds k_citing in
  let relevant (k : pystr) :=
    dict_mem k seeds || dict_mem k cited_papers || dict_mem k citing_papers in
  let filtered_edges :=
    filter (fun '(src, tgt, _) => relevant src && relevant tgt) (ls_edges st) in
  mkGraph seeds cited_papers citing_papers (dedup_edges filtered_edges).

(** [s[:n]] for an [int] bound [n]; a negative [n] counts from the end. *)
Definition py_slice_to (n : Z) (s : pystr) : pystr :=
  if (0 <=? n)%Z then firstn (Z.to_nat n) s
  else firstn (Z.to_nat (Z.of_nat (List.length s) + n)) s.

(** [truncate_title]. *)
Definition truncate_title (title : pystr) (max_len : Z) : pystr :=
  if negb (truthy_str title) then lit "Unknown"
  else if (Z.of_nat (List.length title) <=? max_len)%Z then title
  else py_slice_to (max_len - 3) title ++ lit "...".
End Visualize.

(** ** get_citations.py: merge_paper_lists

    Records are Python dicts shared by reference.  The heap maps an object
    address ([id(paper)]) to the record stored there; a list of papers is a
    list of optional addresses ([None] is the Python [None]). *)
Module Fetch.

Definition Heap := list PaperRecord.
Definition addr := nat.

Definition load (h : Heap) (a : addr) : PaperRecord := nth a h empty_paper.

Fixpoint store (h : Heap) (a : addr) (p : PaperRecord) : Heap :=
  match h, a with
  | [], _ => []
  | _ :: h', O => p :: h'
  | q :: h', S a' => q :: store h' a' p
  end.

Fixpoint uint_digits (d : Decimal.uint) : pystr :=
  match d with
  | Decimal.Nil => []
  | Decimal.D0 d' => "0"%char :: uint_digits d'
  | Decimal.D1 d' => "1"%char :: uint_digits d'
  | Decimal.D2 d' => "2"%char :: uint_digits d'
  | Decimal.D3 d' => "3"%char :: uint_digits d'
  | Decimal.D4 d' => "4"%char :: uint_digits d'
  | Decimal.D5 d' => "5"%char :: uint_digits d'
  | Decimal.D6 d' => "6"%char :: uint_digits d'
  | Decimal.D7 d' => "7"%char :: uint_digits d'
  | Decimal.D8 d' => "8"%char :: uint_digits d'
  | Decimal.D9 d' => "9"%char :: uint_digits d'
  end.

(** [f"{id(paper)}"]. *)
Definition show_addr (a : addr) : pystr := uint_digits (Nat.to_uint a).

(** [get_paper_key] of the fetcher, on the object at address [a]. *)
Definition get_paper_key (paper : PaperRecord) (a : addr) : pystr :=
  if truthy_str (doi paper) then lit "doi:" ++ py_lower (doi paper)
  else if truthy_str (arxiv_id paper) then lit "arxiv:" ++ py_lower (arxiv_id paper)
  else if truthy_str (title paper) then
    lit "title:" ++ py_take 100 (py_lower (title paper))
  else lit "unknown:" ++ show_addr a.

(** The fields of the loop [for field in ["doi", "arxiv_id", "title",
    "authors", "year", "venue"]]. *)
Inductive Field := FDoi | FArxivId | FTitle | FAuthors | FYear | FVenue.

Definition merged_fields : list Field := [FDoi; FArxivId; FTitle; FAuthors; FYear; FVenue].

Definition truthy_year (y : option Z) : bool :=
  match y with Some z => negb (z =? 0)%Z | None => false end.

(** [bool(p.get(field))]. *)
Definition field_truthy (f : Field) (p : PaperRecord) : bool :=
  match f with
  | FDoi => truthy_str (doi p)
  | FArxivId => truthy_str (arxiv_id p)
  | FTitle => truthy_str (title p)
  | FAuthors => match authors p with [] => false | _ => true end
  | FYear => truthy_year (year p)
  | FVenue => truthy_str (venue p)
  end.

(** [dst[field] = src[field]]. *)
Definition copy_field (f : Field) (src dst : PaperRecord) : PaperRecord :=
  match f with
  | FDoi => mkPaper (title dst) (doi src) (arxiv_id dst) (openalex_id dst) (s2_id dst)
                    (authors dst) (year dst) (venue dst) (source dst)
  | FArxivId => mkPaper (title dst) (doi dst) (arxiv_id src) (openalex_id dst) (s2_id dst)
                    (authors dst) (year dst) (venue dst) (source dst)
  | FTitle => mkPaper (title src) (doi dst) (arxiv_id dst) (openalex_id dst) (s2_id dst)
                    (authors dst) (year dst) (venue dst) (source dst)
  | FAuthors => mkPaper (title dst) (doi dst) (arxiv_id dst) (openalex_id dst) (s2_id dst)
                    (authors src) (year dst) (venue dst) (source dst)
  | FYear => mkPaper (title dst) (doi dst) (arxiv_id dst) (openalex_id dst) (s2_id dst)
                    (authors dst) (year src) (venue dst) (source dst)
  | FVenue => mkPaper (title dst) (doi dst) (arxiv_id dst) (openalex_id dst) (s2_id dst)
                    (authors dst) (year dst) (venue src) (source dst)
  end.

Definition set_source (s : pystr) (p : PaperRecord) : PaperRecord :=
  mkPaper (title p) (doi p) (arxiv_id p) (openalex_id p) (s2_id p)
          (authors p) (year p) (venue p) s.

(** The [else] branch: [existing] is the object at [e], [paper] the one at
    [a]; both are read from the heap at every step, as the dicts are. *)
Definition merge_into (h : Heap) (e a : addr) : Heap :=
  let h :=
    fold_left
      (fun h f =>
         let existing := load h e in
         let paper := load h a in
         if negb (field_truthy f existing) && field_truthy f paper
         then store h e (copy_field f paper existing) else h) merged_fields h in
  let existing := load h e in
  let paper := load h a in
  if negb (str_eqb (source existing) (source paper))
  then store h e (set_source (lit "openalex+semantic_scholar") existing) else h.

Fixpoint assoc (k : pystr) (d : list (pystr * addr)) : option addr :=
  match d with
  | [] => None
  | (k', v) :: rest => if str_eqb k' k then Some v else assoc k rest
  end.

(** One iteration of [for paper in list1 + list2]. *)
Definition merge_step (st : Heap * list (pystr * addr)) (o : option addr)
  : Heap * list (pystr * addr) :=
  let (h, seen) := st in
  match o with
  | None => (h, seen)
  | Some a =>
      let key := get_paper_key (load h a) a in
      match assoc key seen with
      | None => (h, seen ++ [(key, a)])
      | Some e => (merge_into h e a, seen)
      end
  end.

(** [merge_paper_lists]: the heap after the call and the returned list,
    whose elements are the objects stored in [seen]. *)
Definition merge_paper_lists (h : Heap) (list1 list2 : list (option addr))
  : Heap * list addr :=
  let (h', seen) := fold_left merge_step (list1 ++ list2) (h, []) in
  (h', map snd seen).

End Fetch.

(** ** get_citations.py: DOI text helpers *)

Module FetchText.

(** [s.startswith(prefix)]. *)
Definition startswith (s prefix : pystr) : bool :=
  match Analyze.strip_prefix prefix s with Some _ => true | None => false end.

Definition doi_prefixes : list pystr :=
  [lit "https://doi.org/"; lit "http://doi.org/"; lit "doi:"].

(** The loop over [prefixes] in [normalize_doi], with its [break]. *)
Fixpoint strip_doi_prefix (prefixes : list pystr) (doi : pystr) : pystr :=
  match prefixes with
  | [] => doi
  | prefix :: rest =>
      if startswith (py_lower doi) (py_lower prefix) then skipn (List.length prefix) doi
      else strip_doi_prefix rest doi
  end.

(** [normalize_doi]. *)
Definition normalize_doi (doi : pystr) : pystr := strip_doi_prefix doi_prefixes (py_strip doi).

(** [needle in s]. *)
Fixpoint contains (needle s : pystr) : bool :=
  startswith s needle || match s with [] => false | _ :: s' => contains needle s' end.

(** [s.split(sep)] for a non-empty [sep]: the pieces between the
    non-overlapping occurrences of [sep], found from the left.  Each step
    consumes at least one character, so [fuel] = [len(s) + 1] suffices. *)
Fixpoint split_sep_fuel (fuel : nat) (sep s : pystr) : list pystr :=
  match fuel with
  | O => [s]
  | S fuel' =>
      match s with
      | [] => [[]]
      | c :: s' =>
          match Analyze.strip_prefix sep s with
          | Some rest => [] :: split_sep_fuel fuel' sep rest
          | None =>
              match split_sep_fuel fuel' sep s' with
              | [] => [[c]]
              | w :: ws => (c :: w) :: ws
              end
          end
      end
  end.

Definition py_split_sep (sep s : pystr) : list pystr :=
  split_sep_fuel (S (List.length s)) sep s.

(** [extract_arxiv_id] of the fetcher; [parts[1]] exists when the test
    [len(parts) > 1] holds. *)
Definition extract_arxiv_id (doi : pystr) : option pystr :=
  let normalized := normalize_doi doi in
  if contains (lit "arxiv") (py_lower normalized) then
    let parts := py_split_sep (lit "arXiv.") normalized in
    if 1 <? List.length parts then Some (nth 1 parts []) else None
  else None.

End FetchText.

(** ** Key derivation over arbitrary JSON field values

    The records handed to [get_paper_key] come from [json.load], so a field
    may hold any JSON value.  This module runs the analysis script's
    [extract_arxiv_id_from_doi], [normalize_title] and [get_paper_key] over
    a JSON object, with Python's exceptions made explicit. *)
Module Raw.

#[local] Set Warnings "-register-all".

Inductive json :=
| JNull
| JBool (b : bool)
| JNum (z : Z)
| JStr (s : pystr)
| JArr (l : list json)
| JObj (l : list (pystr * json)).

(** [bool(v)]. *)
Definition truthy (v : json) : bool :=
  match v with
  | JNull => false
  | JBool b => b
  | JNum z => negb (z =? 0)%Z
  | JStr s => truthy_str s
  | JArr l => match l with [] => false | _ => true end
  | JObj l => match l with [] => false | _ => true end
  end.

Inductive exn := AttributeError.

Inductive result (A : Type) :=
| Ok (a : A)
| Raise (e : exn).
Arguments Ok {A} a.
Arguments Raise {A} e.

Definition bind {A B} (r : result A) (k : A -> result B) : result B :=
  match r with Ok a => k a | Raise e => Raise e end.

Notation "x <- r ;; k" := (bind r (fun x => k)) (at level 61, r at next level, right associativity).

(** [v.lower()]: only a [str] has the method. *)
Definition lower (v : json) : result pystr :=
  match v with JStr s => Ok (py_lower s) | _ => Raise AttributeError end.

(** A JSON object as [json.load] builds it: the last binding of a key wins. *)
Definition Obj := list (pystr * json).

Definition get (o : Obj) (k : pystr) (default : json) : json :=
  fold_left (fun acc kv => if str_eqb (fst kv) k then snd kv else acc) o default.

Definition normalize_title (t : json) : result pystr :=
  if negb (truthy t) then Ok []
  else
    l <- lower t ;;
    let normalized := py_join [sp] (py_split l) in
    let normalized := Analyze.replace_punct normalized in
    let normalized := py_join [sp] (py_split normalized) in
    Ok (py_take 150 (py_strip normalized)).

Definition extract_arxiv_id_from_doi (d : json) : result (option pystr) :=
  if negb (truthy d) then Ok None
  else
    l <- lower d ;;
    Ok (Analyze.arxiv_search l).

Definition get_paper_key (paper : Obj) : result (option pystr) :=
  let t := get paper (lit "title") (JStr []) in
  let k_title :=
    if truthy t then
      n <- normalize_title t ;;
      Ok (if truthy_str n then Some (lit "title:" ++ n) else None)
    else Ok None in
  kt <- k_title ;;
  match kt with
  | Some k => Ok (Some k)
  | None =>
      let d := get paper (lit "doi") (JStr []) in
      let a := get paper (lit "arxiv_id") (JStr []) in
      x <- extract_arxiv_id_from_doi d ;;
      if Analyze.truthy_opt x then Ok (Some (lit "arxiv:" ++ Analyze.odflt x))
      else if truthy a then (la <- lower a ;; Ok (Some (lit "arxiv:" ++ la)))
      else if truthy d then (ld <- lower d ;; Ok (Some (lit "doi:" ++ ld)))
      else
        let oa := get paper (lit "openalex_id") JNull in
        let s2 := get paper (lit "s2_id") JNull in
        if truthy oa then (l <- lower oa ;; Ok (Some (lit "openalex:" ++ l)))
        else if truthy s2 then (l <- lower s2 ;; Ok (Some (lit "s2:" ++ l)))
        else Ok None
  end.

(** The text of a field as the string-level model sees it. *)
Definition as_text (v : json) : pystr :=
  match v with JStr s => s | _ => [] end.

Definition to_record (o : Obj) : PaperRecord :=
  mkPaper (as_text (get o (lit "title") (JStr []))) (as_text (get o (lit "doi") (JStr [])))
          (as_text (get o (lit "arxiv_id") (JStr [])))
          (as_text (get o (lit "openalex_id") JNull))
          (as_text (get o (lit "s2_id") JNull)) [] None [] [].

(** A field whose value is truthy holds a string. *)
Definition str_when_truthy (v : json) : Prop :=
  truthy v = true -> exists s, v = JStr s.

End Raw.

(** ** Namespace priority

    The key of one namespace, or [None] when the namespace is not
    satisfied; the key text of each namespace is the one the source builds. *)
Module Namespaces.

Definition first_satisfied (order : list (PaperRecord -> option pystr))
  (p : PaperRecord) : option pystr :=
  fold_right (fun ns rest => match ns p with Some k => Some k | None => rest end)
    None order.

Definition ns_title (p : PaperRecord) : option pystr :=
  let n := Analyze.normalize_title (title p) in
  if truthy_str n then Some (lit "title:" ++ n) else None.

Definition ns_arxiv_from_doi (p : PaperRecord) : option pystr :=
  match Analyze.extract_arxiv_id_from_doi (doi p) with
  | Some x => if truthy_str x then Some (lit "arxiv:" ++ x) else None
  | None => None
  end.

Definition ns_field (prefix : string) (f : PaperRecord -> pystr)
  (p : PaperRecord) : option pystr :=
  if truthy_str (f p) then Some (lit prefix ++ py_lower (f p)) else None.

Definition ns_raw_title (p : PaperRecord) : option pystr :=
  if truthy_str (title p) then Some (lit "title:" ++ py_take 100 (py_lower (title p)))
  else None.

(** The order of the spec: normalized title, arXiv id from an arXiv DOI,
    explicit arXiv id, DOI, OpenAlex id, Semantic Scholar id. *)
Definition spec_order : list (PaperRecord -> option pystr) :=
  [ns_title; ns_arxiv_from_doi; ns_field "arxiv:" arxiv_id; ns_field "doi:" doi;
   ns_field "openalex:" openalex_id; ns_field "s2:" s2_id].

(** The order of the visualization script: DOI, arXiv id, OpenAlex id,
    Semantic Scholar id, then the lowercased title cut to 100 characters. *)
Definition graph_order : list (PaperRecord -> option pystr) :=
  [ns_field "doi:" doi; ns_field "arxiv:" arxiv_id; ns_field "openalex:" openalex_id;
   ns_field "s2:" s2_id; ns_raw_title].

End Namespaces.

(** * Properties *)

Module KeyOrder.
Import Namespaces.

Lemma normalize_title_nil : Analyze.normalize_title [] = [].
Proof. reflexivity. Qed.

Lemma truthy_str_false (s : pystr) : truthy_str s = false -> s = [].
Proof. destruct s; [reflexivity | discriminate]. Qed.

Ltac split_ifs :=
  repeat match goal with
         | |- context [if ?b then _ else _] => destruct b eqn:?
         | |- context [match ?o with Some _ => _ | None => _ end] =>
             match o with
             | Some _ => fail 1
             | None => fail 1
             | _ => destruct o eqn:?
             end
         end.

Lemma analyze_key_spec_order (p : PaperRecord) :
  Analyze.get_paper_key p = first_satisfied spec_order p.
Proof.
  unfold Analyze.get_paper_key, first_satisfied, spec_order; simpl fold_right.
  unfold ns_title, ns_arxiv_from_doi, ns_field, Analyze.truthy_opt, Analyze.odflt.
  assert (Hn : truthy_str (title p) && truthy_str (Analyze.normalize_title (title p))
               = truthy_str (Analyze.normalize_title (title p))).
  { destruct (truthy_str (title p)) eqn:Ht; [reflexivity |].
    apply truthy_str_false in Ht. rewrite Ht. reflexivity. }
  rewrite Hn.
  destruct (truthy_str (Analyze.normalize_title (title p))); [reflexivity |].
  destruct (Analyze.extract_arxiv_id_from_doi (doi p)) as [x |];
    [destruct (truthy_str x); [reflexivity |] |];
    destruct (truthy_str (arxiv_id p)); try reflexivity;
    destruct (truthy_str (doi p)); try reflexivity;
    destruct (truthy_str (openalex_id p)); try reflexivity;
    destruct (truthy_str (s2_id p)); reflexivity.
Qed.

Lemma visualize_key_graph_order (p : PaperRecord) :
  Visualize.get_paper_key p = first_satisfied graph_order p.
Proof.
  unfold Visualize.get_paper_key, first_satisfied, graph_order; simpl fold_right.
  unfold ns_field, ns_raw_title. split_ifs; first [reflexivity | congruence].
Qed.

(** C2 (amended): the analysis script's [get_paper_key] returns the key of
    the first satisfied namespace in the order normalized title, arXiv id
    from an arXiv DOI, explicit arXiv id, DOI, OpenAlex id, Semantic Scholar
    id, and [None] when none is satisfied; the visualization script's
    [get_paper_key] uses the order DOI, arXiv id, OpenAlex id, Semantic
    Scholar id, lowercased title cut to 100 characters. *)
Theorem key_priority_order (p : PaperRecord) :
  Analyze.get_paper_key p = first_satisfied spec_order p /\
  Visualize.get_paper_key p = first_satisfied graph_order p.
Proof. split; [apply analyze_key_spec_order | apply visualize_key_graph_order]. Qed.

Definition titled_doi_paper : PaperRecord :=
  mkPaper (lit "Paper A") (lit "10.1/x") [] [] [] [] None [] [].

(** C2 (counterexample): a record with a title and a DOI gets a [doi:] key
    from the visualization script, while the title comes first in the
    spec's order. *)
Lemma key_priority_order_cex :
  Visualize.get_paper_key titled_doi_paper = Some (lit "doi:10.1/x") /\
  first_satisfied spec_order titled_doi_paper = Some (lit "title:paper a").
Proof. split; vm_compute; reflexivity. Qed.

End KeyOrder.

(** ** Title normalization *)
Module TitleNorm.
Import Analyze.

Definition nospace (c : ascii) : Prop := is_space c = false.

(** A word of [str.split()]: non-empty, without whitespace. *)
Definition good (w : pystr) : Prop := w <> [] /\ Forall nospace w.

Lemma lower_char_idem (c : ascii) : lower_char (lower_char c) = lower_char c.
Proof. destruct c as [[] [] [] [] [] [] [] []]; reflexivity. Qed.

Lemma is_space_sp : is_space sp = true.
Proof. reflexivity. Qed.

Lemma split_on_nonnil (s : pystr) : split_on s <> [].
Proof.
  destruct s as [| c s]; simpl; [discriminate |].
  destruct (is_space c); [discriminate |].
  destruct (split_on s); discriminate.
Qed.

Lemma split_on_Forall (P : ascii -> Prop) (s : pystr) :
  Forall P s -> Forall (Forall P) (split_on s).
Proof.
  induction 1 as [| c s Hc Hs IH]; simpl; [repeat constructor |].
  destruct (is_space c); [constructor; [constructor | exact IH] |].
  destruct (split_on s) as [| w ws]; [repeat constructor; assumption |].
  inversion IH; subst. constructor; [constructor |]; assumption.
Qed.

Lemma split_on_nospace (s : pystr) : Forall (Forall nospace) (split_on s).
Proof.
  induction s as [| c s IH]; simpl; [repeat constructor |].
  destruct (is_space c) eqn:Hc; [constructor; [constructor | exact IH] |].
  destruct (split_on s) as [| w ws]; [repeat constructor; assumption |].
  inversion IH; subst. constructor; [constructor |]; assumption.
Qed.

Lemma Forall_filter {A} (P : A -> Prop) (f : A -> bool) (l : list A) :
  Forall P l -> Forall P (filter f l).
Proof.
  induction 1; simpl; [constructor |]. destruct (f x); [constructor |]; assumption.
Qed.

Lemma py_split_good (s : pystr) : Forall good (py_split s).
Proof.
  unfold py_split. generalize (split_on_nospace s).
  induction 1 as [| w ws Hw Hws IH]; simpl; [constructor |].
  destruct w as [| c w]; simpl; [exact IH |].
  constructor; [split; [discriminate | exact Hw] | exact IH].
Qed.

Lemma py_split_Forall (P : ascii -> Prop) (s : pystr) :
  Forall P s -> Forall (Forall P) (py_split s).
Proof. intro H. apply Forall_filter, split_on_Forall, H. Qed.

Lemma join_Forall (P : ascii -> Prop) (ws : list pystr) :
  P sp -> Forall (Forall P) ws -> Forall P (py_join [sp] ws).
Proof.
  intros Hsp. induction 1 as [| w ws Hw Hws IH]; [constructor |].
  destruct ws as [| w2 ws]; [exact Hw |].
  change (Forall P (w ++ sp :: py_join [sp] (w2 :: ws))).
  apply Forall_app; split; [exact Hw | constructor; assumption].
Qed.

Lemma join_cons (w : pystr) (ws : list pystr) :
  ws <> [] -> py_join [sp] (w :: ws) = w ++ sp :: py_join [sp] ws.
Proof. destruct ws; [contradiction | reflexivity]. Qed.

Lemma split_on_word_app (w s : pystr) :
  Forall nospace w ->
  split_on (w ++ s) = match split_on s with
                      | [] => [w]
                      | x :: r => (w ++ x) :: r
                      end.
Proof.
  induction 1 as [| c w Hc Hw IH]; simpl.
  - destruct (split_on s) as [| x r] eqn:E; [destruct (split_on_nonnil s E) | reflexivity].
  - rewrite IH. unfold nospace in Hc. rewrite Hc.
    destruct (split_on s) as [| x r] eqn:E; [destruct (split_on_nonnil s E) | reflexivity].
Qed.

Lemma split_on_space_cons (c : ascii) (s : pystr) :
  is_space c = true -> split_on (c :: s) = [] :: split_on s.
Proof. intros Hc. simpl. rewrite Hc. reflexivity. Qed.

Lemma split_on_join (ws : list pystr) :
  ws <> [] -> Forall (Forall nospace) ws -> split_on (py_join [sp] ws) = ws.
Proof.
  intros Hne H. induction H as [| w ws Hw Hws IH]; [contradiction |].
  destruct ws as [| w2 ws].
  - rewrite <- (app_nil_r w) at 1. simpl py_join.
    rewrite (split_on_word_app w [] Hw). simpl. rewrite app_nil_r. reflexivity.
  - rewrite join_cons by discriminate.
    rewrite (split_on_word_app w _ Hw), split_on_space_cons by reflexivity.
    rewrite IH by discriminate. rewrite app_nil_r. reflexivity.
Qed.

Lemma filter_nonempty_good (ws : list pystr) :
  Forall good ws -> filter nonempty ws = ws.
Proof.
  induction 1 as [| w ws [Hne _] Hws IH]; simpl; [reflexivity |].
  destruct w; [contradiction | simpl; f_equal; exact IH].
Qed.

Lemma py_split_join (ws : list pystr) :
  Forall good ws -> py_split (py_join [sp] ws) = ws.
Proof.
  intros H. destruct ws as [| w ws]; [reflexivity |].
  unfold py_split. rewrite split_on_join.
  - apply filter_nonempty_good, H.
  - discriminate.
  - eapply Forall_impl; [| exact H]. intros x [_ Hx]; exact Hx.
Qed.

Lemma split_on_snoc_space (x : pystr) (c : ascii) :
  is_space c = true -> split_on (x ++ [c]) = split_on x ++ [[]].
Proof.
  intros Hc. induction x as [| a x IH]; simpl.
  - rewrite Hc. reflexivity.
  - rewrite IH. destruct (is_space a); [reflexivity |].
    destruct (split_on x) as [| w ws] eqn:E; [destruct (split_on_nonnil x E) | reflexivity].
Qed.

Lemma py_split_snoc_space (x : pystr) : py_split (x ++ [sp]) = py_split x.
Proof.
  unfold py_split. rewrite split_on_snoc_space by reflexivity.
  rewrite filter_app. simpl. apply app_nil_r.
Qed.

Lemma firstn_in {A} (k : nat) (l : list A) (x : A) : In x (firstn k l) -> In x l.
Proof.
  intros H. rewrite <- (firstn_skipn k l). apply in_or_app. left. exact H.
Qed.

Lemma Forall_firstn {A} (P : A -> Prop) (k : nat) (l : list A) :
  Forall P l -> Forall P (firstn k l).
Proof.
  rewrite !Forall_forall. intros H x Hx. apply H. eapply firstn_in; eauto.
Qed.

(** A prefix of joined words is joined words, possibly followed by one
    space. *)
Lemma take_join (k : nat) (ws : list pystr) :
  Forall good ws ->
  exists ws',
    Forall good ws' /\ incl (List.concat ws') (List.concat ws) /\
    (firstn k (py_join [sp] ws) = py_join [sp] ws' \/
     (ws' <> [] /\ firstn k (py_join [sp] ws) = py_join [sp] ws' ++ [sp])).
Proof.
  intros H. revert k. induction H as [| w ws [Hwne Hw] Hws IH]; intros k.
  - exists []. split; [constructor |]. split; [intros x Hx; exact Hx |].
    left. rewrite firstn_nil. reflexivity.
  - assert (Hprefix : exists ws', Forall good ws' /\ incl (List.concat ws') (List.concat (w :: ws)) /\
                                  firstn k w = py_join [sp] ws').
    { destruct (firstn k w) as [| c r] eqn:E.
      - exists []. split; [constructor |]. split; [intros x Hx; destruct Hx |]. reflexivity.
      - exists [c :: r]. split.
        + constructor; [| constructor]. split; [discriminate |].
          rewrite <- E. apply Forall_firstn, Hw.
        + split; [| reflexivity]. intros x Hx. cbn [List.concat] in Hx |- *.
          rewrite app_nil_r in Hx. apply in_or_app. left.
          apply (firstn_in k). rewrite E. exact Hx. }
    destruct ws as [| w2 ws].
    + destruct Hprefix as [ws' [Hg [Hi He]]]. exists ws'. split; [exact Hg |].
      split; [exact Hi |]. left. exact He.
    + rewrite join_cons by discriminate. rewrite firstn_app.
      destruct (Nat.le_gt_cases k (List.length w)) as [Hk | Hk].
      * replace (k - List.length w) with 0 by lia. rewrite firstn_O, app_nil_r.
        destruct Hprefix as [ws' [Hg [Hi He]]]. exists ws'. split; [exact Hg |].
        split; [exact Hi |]. left. exact He.
      * replace (k - List.length w) with (S (k - List.length w - 1)) by lia.
        rewrite firstn_all2 by lia. rewrite firstn_cons.
        destruct (IH (k - List.length w - 1)) as [ws'' [Hg [Hi Hf]]].
        assert (Hg' : Forall good (w :: ws'')) by (constructor; [split |]; assumption).
        assert (Hi' : incl (List.concat (w :: ws'')) (List.concat (w :: w2 :: ws))).
        { simpl. intros x Hx. apply in_app_or in Hx. apply in_or_app.
          destruct Hx as [Hx | Hx]; [left; exact Hx | right; apply Hi, Hx]. }
        destruct Hf as [Hf | [Hne Hf]]; rewrite Hf.
        -- destruct ws'' as [| w3 ws''].
           ++ exists [w]. split; [constructor; [split |]; [assumption | assumption | constructor] |].
              split; [| right; split; [discriminate | reflexivity]].
              simpl. rewrite app_nil_r. intros x Hx. apply in_or_app. left. exact Hx.
           ++ exists (w :: w3 :: ws''). split; [exact Hg' |]. split; [exact Hi' |].
              left. rewrite (join_cons w (w3 :: ws'')) by discriminate. reflexivity.
        -- exists (w :: ws''). split; [exact Hg' |]. split; [exact Hi' |].
           right. split; [discriminate |].
           rewrite (join_cons w ws'') by exact Hne. rewrite <- app_assoc. reflexivity.
Qed.

Definition starts_ok (x : pystr) : Prop :=
  match x with [] => True | c :: _ => is_space c = false end.

Lemma drop_ws_id (x : pystr) : starts_ok x -> drop_ws x = x.
Proof. destruct x as [| c x]; simpl; [reflexivity |]. intros H; rewrite H; reflexivity. Qed.

Lemma join_starts_ok (ws : list pystr) : Forall good ws -> starts_ok (py_join [sp] ws).
Proof.
  intros H. destruct H as [| w ws [Hne Hw] _]; simpl; [exact I |].
  destruct w as [| c w]; [contradiction |]. inversion Hw; subst.
  destruct ws; assumption.
Qed.

Lemma join_snoc (ws : list pystr) (y : pystr) :
  ws <> [] -> py_join [sp] (ws ++ [y]) = py_join [sp] ws ++ sp :: y.
Proof.
  intros Hne. induction ws as [| w ws IH]; [contradiction |].
  destruct ws as [| w2 ws]; [reflexivity |].
  change ((w :: w2 :: ws) ++ [y]) with (w :: ((w2 :: ws) ++ [y])).
  rewrite join_cons by (simpl; discriminate).
  rewrite IH by discriminate. rewrite (join_cons w (w2 :: ws)) by discriminate.
  rewrite <- app_assoc. reflexivity.
Qed.

Lemma rev_join (ws : list pystr) :
  rev (py_join [sp] ws) = py_join [sp] (rev (map (@rev ascii) ws)).
Proof.
  induction ws as [| w ws IH]; [reflexivity |].
  destruct ws as [| w2 ws]; [reflexivity |].
  rewrite join_cons by discriminate. rewrite rev_app_distr.
  change (rev (sp :: py_join [sp] (w2 :: ws)))
    with (rev (py_join [sp] (w2 :: ws)) ++ [sp]).
  rewrite IH.
  change (rev (map (@rev ascii) (w :: w2 :: ws)))
    with (rev (map (@rev ascii) (w2 :: ws)) ++ [rev w]).
  rewrite join_snoc.
  - rewrite <- app_assoc. reflexivity.
  - intros E. apply (f_equal (@List.length _)) in E.
    rewrite length_rev, length_map in E. simpl in E. lia.
Qed.

Lemma good_rev_map (ws : list pystr) : Forall good ws -> Forall good (rev (map (@rev ascii) ws)).
Proof.
  intros H. apply Forall_rev. apply Forall_map. eapply Forall_impl; [| exact H].
  intros w [Hne Hw]. split; [| apply Forall_rev, Hw].
  intros E. apply Hne. rewrite <- (rev_involutive w), E. reflexivity.
Qed.

Lemma strip_join (ws : list pystr) : Forall good ws -> py_strip (py_join [sp] ws) = py_join [sp] ws.
Proof.
  intros H. unfold py_strip. rewrite (drop_ws_id _ (join_starts_ok _ H)).
  rewrite rev_join, drop_ws_id by (apply join_starts_ok, good_rev_map, H).
  rewrite <- rev_join. apply rev_involutive.
Qed.

Lemma strip_join_snoc (ws : list pystr) :
  Forall good ws -> py_strip (py_join [sp] ws ++ [sp]) = py_join [sp] ws.
Proof.
  intros H. unfold py_strip. destruct ws as [| w ws]; [reflexivity |].
  pose proof (join_starts_ok _ H) as Hs.
  destruct (py_join [sp] (w :: ws)) as [| c r] eqn:E.
  - inversion H as [| ? ? [Hne _] _]; subst. destruct w; [contradiction |].
    destruct ws; discriminate.
  - rewrite (drop_ws_id ((c :: r) ++ [sp])) by exact Hs.
    rewrite rev_app_distr. change (rev [sp] ++ rev (c :: r)) with (sp :: rev (c :: r)).
    change (drop_ws (sp :: rev (c :: r))) with (drop_ws (rev (c :: r))).
    rewrite <- E, rev_join, drop_ws_id by (apply join_starts_ok, good_rev_map, H).
    rewrite <- rev_join. apply rev_involutive.
Qed.

(** [replace_punct] replaces every punctuation character by a space. *)
Definition repl (x : ascii) : ascii :=
  if existsb (fun ch => Ascii.eqb x ch) punct then sp else x.

Lemma fold_replace_map (l : list ascii) (s : pystr) :
  ~ In sp l ->
  fold_left (fun acc ch => replace_char ch acc) l s =
  map (fun x => if existsb (fun ch => Ascii.eqb x ch) l then sp else x) s.
Proof.
  revert s. induction l as [| ch l IH]; intros s Hsp; simpl.
  - symmetry. apply map_id.
  - rewrite IH by (intros H; apply Hsp; right; exact H).
    unfold replace_char. rewrite map_map. apply map_ext. intros x.
    destruct (ascii_dec x ch) as [-> | Hne].
    + rewrite Ascii.eqb_refl. simpl orb.
      destruct (existsb (fun c => Ascii.eqb sp c) l); reflexivity.
    + apply Ascii.eqb_neq in Hne. rewrite Hne. reflexivity.
Qed.

Lemma replace_punct_map (s : pystr) : replace_punct s = map repl s.
Proof. unfold replace_punct. rewrite fold_replace_map by (simpl; intuition discriminate). reflexivity. Qed.

(** The characters that survive normalization. *)
Definition kept (c : ascii) : Prop := lower_char c = c /\ existsb (fun ch => Ascii.eqb c ch) punct = false.

Lemma kept_sp : kept sp.
Proof. split; reflexivity. Qed.

Lemma py_lower_kept (s : pystr) : Forall (fun c => lower_char c = c) s -> py_lower s = s.
Proof.
  induction 1 as [| c s Hc _ IH]; [reflexivity |]. simpl. rewrite Hc. f_equal. exact IH.
Qed.

Lemma replace_punct_kept (s : pystr) : Forall kept s -> replace_punct s = s.
Proof.
  rewrite replace_punct_map. induction 1 as [| c s [_ Hc] _ IH]; [reflexivity |].
  simpl. unfold repl at 1. rewrite Hc. f_equal. exact IH.
Qed.

Lemma Forall_incl {A} (P : A -> Prop) (l1 l2 : list A) :
  incl l1 l2 -> Forall P l2 -> Forall P l1.
Proof. rewrite !Forall_forall. intros Hi H x Hx. apply H, Hi, Hx. Qed.

Lemma Forall_concat {A} (P : A -> Prop) (ws : list (list A)) :
  Forall (Forall P) ws -> Forall P (List.concat ws).
Proof. induction 1; simpl; [constructor | apply Forall_app; split; assumption]. Qed.

Lemma Forall_concat_inv {A} (P : A -> Prop) (ws : list (list A)) :
  Forall P (List.concat ws) -> Forall (Forall P) ws.
Proof.
  induction ws as [| w ws IH]; simpl; intros H; [constructor |].
  apply Forall_app in H as [H1 H2]. constructor; [exact H1 | apply IH, H2].
Qed.

Lemma normalize_title_length (t : pystr) : List.length (normalize_title t) <= 150.
Proof.
  unfold normalize_title. destruct (negb (truthy_str t)); [simpl; lia |].
  apply firstn_le_length.
Qed.

(** A normalized title is a sequence of words made of kept characters,
    joined by single spaces, possibly followed by one space left by the
    cut to 150 characters. *)
Lemma normal_form (t : pystr) :
  exists ws, Forall good ws /\ Forall kept (List.concat ws) /\
    (normalize_title t = py_join [sp] ws \/
     (ws <> [] /\ normalize_title t = py_join [sp] ws ++ [sp])).
Proof.
  unfold normalize_title. destruct (truthy_str t) eqn:Ht; simpl negb; cbv iota.
  2: { exists []. split; [constructor |]. split; [constructor |]. left; reflexivity. }
  assert (H1 : Forall (fun c => lower_char c = c) (py_lower t)).
  { apply Forall_forall. intros c Hc. unfold py_lower in Hc.
    apply in_map_iff in Hc as [x [<- _]]. apply lower_char_idem. }
  assert (H2 : Forall (fun c => lower_char c = c) (py_join [sp] (py_split (py_lower t)))).
  { apply join_Forall; [reflexivity | apply py_split_Forall, H1]. }
  assert (H3 : Forall kept (replace_punct (py_join [sp] (py_split (py_lower t))))).
  { rewrite replace_punct_map. apply Forall_forall. intros c Hc.
    apply in_map_iff in Hc as [x [<- Hx]]. unfold repl.
    destruct (existsb (fun ch => Ascii.eqb x ch) punct) eqn:E; [apply kept_sp |].
    split; [| exact E]. rewrite Forall_forall in H2. apply H2, Hx. }
  set (ws4 := py_split (replace_punct (py_join [sp] (py_split (py_lower t))))).
  assert (Hg4 : Forall good ws4) by apply py_split_good.
  assert (Hk4 : Forall (Forall kept) ws4) by (apply py_split_Forall, H3).
  unfold py_take. rewrite (strip_join _ Hg4).
  destruct (take_join 150 ws4 Hg4) as [ws' [Hg' [Hi' Hf']]].
  exists ws'. split; [exact Hg' |]. split; [| exact Hf'].
  eapply Forall_incl; [exact Hi' | apply Forall_concat, Hk4].
Qed.

Lemma normalize_normal (ws : list pystr) (x : pystr) :
  Forall good ws -> Forall kept (List.concat ws) -> List.length x <= 150 ->
  (x = py_join [sp] ws \/ (ws <> [] /\ x = py_join [sp] ws ++ [sp])) ->
  normalize_title x = py_join [sp] ws.
Proof.
  intros Hg Hk Hlen Hx.
  assert (HkJ : Forall kept (py_join [sp] ws))
    by (apply join_Forall; [apply kept_sp | apply Forall_concat_inv, Hk]).
  assert (HkX : Forall kept x).
  { destruct Hx as [-> | [_ ->]]; [exact HkJ |].
    apply Forall_app; split; [exact HkJ | constructor; [apply kept_sp | constructor]]. }
  assert (HlenJ : List.length (py_join [sp] ws) <= 150).
  { destruct Hx as [-> | [_ ->]]; [exact Hlen |].
    rewrite length_app in Hlen. lia. }
  unfold normalize_title. destruct (truthy_str x) eqn:Hnx; simpl negb; cbv iota.
  - rewrite py_lower_kept by (eapply Forall_impl; [| exact HkX]; intros c [Hc _]; exact Hc).
    assert (Hs : py_split x = ws).
    { destruct Hx as [-> | [_ ->]];
        [| rewrite py_split_snoc_space]; apply py_split_join, Hg. }
    rewrite Hs, replace_punct_kept by exact HkJ.
    rewrite py_split_join, strip_join by exact Hg.
    apply firstn_all2, HlenJ.
  - apply KeyOrder.truthy_str_false in Hnx. subst x.
    destruct Hx as [Hx | [_ Hx]]; [exact Hx |].
    destruct (py_join [sp] ws); discriminate.
Qed.

(** C5 (amended): normalizing a normalized title again strips it: the only
    change the second application makes is to drop the single trailing
    space that the cut to 150 characters can leave; a normalized title that
    does not end with a space is returned unchanged. *)
Theorem normalize_title_twice (t : pystr) :
  normalize_title (normalize_title t) = py_strip (normalize_title t).
Proof.
  destruct (normal_form t) as [ws [Hg [Hk Hf]]].
  rewrite (normalize_normal ws (normalize_title t) Hg Hk (normalize_title_length t) Hf).
  destruct Hf as [-> | [_ ->]]; symmetry; [apply strip_join | apply strip_join_snoc]; exact Hg.
Qed.

Definition long_title : pystr := repeat "a"%char 149 ++ lit " b".

(** C5 (counterexample): a title whose 150th character is a space is not
    a fixed point: the first normalization ends with that space, the
    second drops it. *)
Lemma normalize_title_not_idempotent :
  normalize_title long_title = repeat "a"%char 149 ++ [sp] /\
  normalize_title (normalize_title long_title) = repeat "a"%char 149.
Proof. split; vm_compute; reflexivity. Qed.

End TitleNorm.

(** ** Key derivation over JSON values *)
Module RawKey.
Import Raw.

Lemma truthy_as_text (v : json) :
  str_when_truthy v -> truthy v = truthy_str (as_text v).
Proof.
  intros H. destruct (truthy v) eqn:E.
  - destruct (H E) as [s ->]. symmetry. exact E.
  - destruct v; try reflexivity; simpl; symmetry; exact E.
Qed.

Lemma lower_as_text (v : json) :
  str_when_truthy v -> truthy v = true -> lower v = Ok (py_lower (as_text v)).
Proof. intros H E. destruct (H E) as [s ->]. reflexivity. Qed.

Lemma normalize_as_text (t : json) :
  str_when_truthy t -> normalize_title t = Ok (Analyze.normalize_title (as_text t)).
Proof.
  intros H. unfold normalize_title, Analyze.normalize_title.
  rewrite (truthy_as_text t H).
  destruct (truthy_str (as_text t)) eqn:E; simpl negb; cbv iota; [| reflexivity].
  rewrite (lower_as_text t H) by (rewrite (truthy_as_text t H); exact E). reflexivity.
Qed.

Lemma extract_as_text (d : json) :
  str_when_truthy d ->
  extract_arxiv_id_from_doi d = Ok (Analyze.extract_arxiv_id_from_doi (as_text d)).
Proof.
  intros H. unfold extract_arxiv_id_from_doi, Analyze.extract_arxiv_id_from_doi.
  rewrite (truthy_as_text d H).
  destruct (truthy_str (as_text d)) eqn:E; simpl negb; cbv iota; [| reflexivity].
  rewrite (lower_as_text d H) by (rewrite (truthy_as_text d H); exact E). reflexivity.
Qed.

(** C8 (amended): key derivation never raises on a record in which every
    truthy value among [title], [doi], [arxiv_id], [openalex_id] and
    [s2_id] is a string (missing, null, empty or otherwise falsy fields
    included); it then returns the key or [None] that the string-level
    [get_paper_key] computes. *)
Theorem get_paper_key_no_raise (o : Obj) :
  str_when_truthy (get o (lit "title") (JStr [])) ->
  str_when_truthy (get o (lit "doi") (JStr [])) ->
  str_when_truthy (get o (lit "arxiv_id") (JStr [])) ->
  str_when_truthy (get o (lit "openalex_id") JNull) ->
  str_when_truthy (get o (lit "s2_id") JNull) ->
  get_paper_key o = Ok (Analyze.get_paper_key (to_record o)).
Proof.
  intros Ht Hd Ha Ho Hs.
  unfold get_paper_key, Analyze.get_paper_key, to_record; cbn [title doi arxiv_id openalex_id s2_id].
  set (t := get o (lit "title") (JStr [])) in *.
  set (d := get o (lit "doi") (JStr [])) in *.
  set (a := get o (lit "arxiv_id") (JStr [])) in *.
  set (oa := get o (lit "openalex_id") JNull) in *.
  set (s2 := get o (lit "s2_id") JNull) in *.
  rewrite (truthy_as_text t Ht).
  destruct (truthy_str (as_text t)) eqn:Et; simpl andb.
  - rewrite (normalize_as_text t Ht). simpl bind.
    destruct (truthy_str (Analyze.normalize_title (as_text t))); [reflexivity |].
    simpl bind. rewrite (extract_as_text d Hd). simpl bind.
    destruct (Analyze.truthy_opt _); [reflexivity |].
    rewrite (truthy_as_text a Ha), (truthy_as_text d Hd), (truthy_as_text oa Ho),
      (truthy_as_text s2 Hs).
    destruct (truthy_str (as_text a)) eqn:Ea;
      [rewrite (lower_as_text a Ha) by (rewrite (truthy_as_text a Ha); exact Ea); reflexivity |].
    destruct (truthy_str (as_text d)) eqn:Ed;
      [rewrite (lower_as_text d Hd) by (rewrite (truthy_as_text d Hd); exact Ed); reflexivity |].
    destruct (truthy_str (as_text oa)) eqn:Eo;
      [rewrite (lower_as_text oa Ho) by (rewrite (truthy_as_text oa Ho); exact Eo); reflexivity |].
    destruct (truthy_str (as_text s2)) eqn:Es;
      [rewrite (lower_as_text s2 Hs) by (rewrite (truthy_as_text s2 Hs); exact Es); reflexivity |].
    reflexivity.
  - simpl bind. rewrite (extract_as_text d Hd). simpl bind.
    destruct (Analyze.truthy_opt _); [reflexivity |].
    rewrite (truthy_as_text a Ha), (truthy_as_text d Hd), (truthy_as_text oa Ho),
      (truthy_as_text s2 Hs).
    destruct (truthy_str (as_text a)) eqn:Ea;
      [rewrite (lower_as_text a Ha) by (rewrite (truthy_as_text a Ha); exact Ea); reflexivity |].
    destruct (truthy_str (as_text d)) eqn:Ed;
      [rewrite (lower_as_text d Hd) by (rewrite (truthy_as_text d Hd); exact Ed); reflexivity |].
    destruct (truthy_str (as_text oa)) eqn:Eo;
      [rewrite (lower_as_text oa Ho) by (rewrite (truthy_as_text oa Ho); exact Eo); reflexivity |].
    destruct (truthy_str (as_text s2)) eqn:Es;
      [rewrite (lower_as_text s2 Hs) by (rewrite (truthy_as_text s2 Hs); exact Es); reflexivity |].
    reflexivity.
Qed.

Definition arxiv_doi_record : Obj :=
  [(lit "title", JNull); (lit "doi", JStr (lit "10.48550/arXiv.2201.05125"));
   (lit "year", JNum 2022%Z)].

Lemma get_paper_key_no_raise_witness :
  get_paper_key arxiv_doi_record = Ok (Some (lit "arxiv:2201.05125")).
Proof.
  rewrite (get_paper_key_no_raise arxiv_doi_record).
  - vm_compute. reflexivity.
  - intros H. discriminate H.
  - intros _. eexists. reflexivity.
  - intros H. discriminate H.
  - intros H. discriminate H.
  - intros H. discriminate H.
Defined.

Definition numeric_title_record : Obj := [(lit "title", JNum 123%Z)].

(** C8 (counterexample): a record whose title is the JSON number 123
    makes [normalize_title] call [.lower()] on an [int], which raises
    [AttributeError]. *)
Lemma get_paper_key_raises :
  get_paper_key numeric_title_record = Raise AttributeError.
Proof. vm_compute. reflexivity. Qed.

End RawKey.

(** ** Common facts on strings and sets *)
Module Common.

Lemma str_eqb_eq (a b : pystr) : str_eqb a b = true <-> a = b.
Proof.
  unfold str_eqb. destruct (list_eq_dec ascii_dec a b); split; congruence.
Qed.

Lemma str_eqb_refl (a : pystr) : str_eqb a a = true.
Proof. apply str_eqb_eq. reflexivity. Qed.

Lemma str_eqb_sym (a b : pystr) : str_eqb a b = str_eqb b a.
Proof.
  destruct (str_eqb a b) eqn:E1, (str_eqb b a) eqn:E2; try reflexivity.
  - apply str_eqb_eq in E1. subst. rewrite str_eqb_refl in E2. discriminate.
  - apply str_eqb_eq in E2. subst. rewrite str_eqb_refl in E1. discriminate.
Qed.

Lemma set_mem_In (k : pystr) (s : list pystr) : set_mem k s = true <-> In k s.
Proof.
  unfold set_mem. rewrite existsb_exists. split.
  - intros [x [Hx E]]. apply str_eqb_eq in E. subst. exact Hx.
  - intros H. exists k. split; [exact H | apply str_eqb_refl].
Qed.

Lemma set_add_In (k x : pystr) (s : list pystr) : In x (set_add k s) <-> x = k \/ In x s.
Proof.
  unfold set_add. destruct (set_mem k s) eqn:E.
  - apply set_mem_In in E. split; [intros H; right; exact H |].
    intros [-> | H]; assumption.
  - rewrite in_app_iff. simpl. intuition.
Qed.

Lemma set_add_NoDup (k : pystr) (s : list pystr) : NoDup s -> NoDup (set_add k s).
Proof.
  intros H. unfold set_add. destruct (set_mem k s) eqn:E; [exact H |].
  apply NoDup_app; [exact H | repeat constructor; intros [] |].
  intros x Hx [<- | []]. apply (proj2 (set_mem_In _ s)) in Hx. congruence.
Qed.

End Common.

(** ** The aggregated result lists *)
Module Aggregation.
Import Analyze Common.

Lemma insert_sorted_In (x y : AggEntry) (l : list AggEntry) :
  In x (insert_sorted y l) <-> x = y \/ In x l.
Proof.
  induction l as [| z l IH]; simpl; [intuition |].
  destruct (agg_ltb y z); simpl; [intuition |]. rewrite IH. intuition.
Qed.

Lemma sort_entries_In (x : AggEntry) (l : list AggEntry) :
  In x (sort_entries l) <-> In x l.
Proof.
  unfold sort_entries. enough (H : forall acc, In x (fold_left (fun acc x => insert_sorted x acc) l acc)
                                            <-> In x acc \/ In x l)
    by (rewrite H; simpl; intuition).
  induction l as [| y l IH]; intros acc; simpl; [intuition |].
  rewrite IH, insert_sorted_In. intuition.
Qed.

Lemma filter_index_In (e : AggEntry) (idx : Index) (seeds : list pystr) (k : Z) :
  In e (filter_index idx seeds k) <->
  exists key m l, In (key, (m, l)) idx /\ set_mem key seeds = false /\
    (k <= Z.of_nat (List.length l))%Z /\
    e = mkAgg key (doi m) (arxiv_id m) (title m) (authors m) (year m) (venue m)
              (List.length l) l false.
Proof.
  unfold filter_index. rewrite in_flat_map. split.
  - intros [[key [m l]] [Hin He]].
    destruct (set_mem key seeds) eqn:Es; [destruct He |].
    destruct (k <=? Z.of_nat (List.length l))%Z eqn:Ek; [| destruct He].
    destruct He as [<- | []]. exists key, m, l. apply Z.leb_le in Ek.
    rewrite Es. auto.
  - intros (key & m & l & Hin & Es & Ek & ->). exists (key, (m, l)). split; [exact Hin |].
    rewrite Es. apply Z.leb_le in Ek. rewrite Ek. left. reflexivity.
Qed.

(** C4: no entry of either result list has a seed key, for every input
    and every threshold. *)
Theorem results_exclude_seeds (papers : list Entry) (k_cited k_citing : Z) (e : AggEntry) :
  In e (fst (analyze_citations papers k_cited k_citing)) \/
  In e (snd (analyze_citations papers k_cited k_citing)) ->
  ~ In (ae_key e) (seed_keys papers).
Proof.
  simpl. rewrite !sort_entries_In, !filter_index_In.
  intros [(key & m & l & _ & Es & _ & ->) | (key & m & l & _ & Es & _ & ->)];
    simpl; rewrite <- set_mem_In; congruence.
Qed.

(** *** Contents of an index *)

Fixpoint lookup_entry {V} (key : pystr) (idx : list (pystr * V)) : option V :=
  match idx with
  | [] => None
  | (k, v) :: rest => if str_eqb k key then Some v else lookup_entry key rest
  end.

(** The contributions recorded under [key]; [[]] when there is no entry. *)
Definition contribs (key : pystr) (idx : Index) : list SeedRef :=
  match lookup_entry key idx with Some (_, l) => l | None => [] end.

Definition seed_ref (paper : Entry) : SeedRef :=
  mkSeedRef (input_doi paper) (get_seed_paper_label paper).

(** The records of a relation list whose key is [key]. *)
Definition key_hits (key : pystr) (l : list PaperRecord) : list PaperRecord :=
  filter (fun r => match get_paper_key r with
                   | Some k => str_eqb k key
                   | None => false
                   end) l.

Definition entry_contribs (rel : Entry -> list PaperRecord) (key : pystr) (paper : Entry)
  : list SeedRef :=
  match metadata paper with
  | None => []
  | Some _ => repeat (seed_ref paper) (List.length (key_hits key (rel paper)))
  end.

Lemma index_add_contribs (key k : pystr) (r : PaperRecord) (sr : SeedRef) (idx : Index) :
  contribs key (index_add k r sr idx) =
  contribs key idx ++ (if str_eqb k key then [sr] else []).
Proof.
  unfold contribs. induction idx as [| [k' [m l]] rest IH]; simpl.
  - destruct (str_eqb k key); reflexivity.
  - destruct (str_eqb k' k) eqn:E1.
    + apply str_eqb_eq in E1. subst k'. simpl.
      destruct (str_eqb k key); [reflexivity | now rewrite app_nil_r].
    + simpl. destruct (str_eqb k' key) eqn:E2; [| exact IH].
      apply str_eqb_eq in E2. subst k'. rewrite str_eqb_sym, E1. now rewrite app_nil_r.
Qed.

Lemma build_index_contribs (rel : Entry -> list PaperRecord) (key : pystr) (papers : list Entry) :
  contribs key (build_index rel papers) = flat_map (entry_contribs rel key) papers.
Proof.
  unfold build_index.
  enough (H : forall acc, contribs key (fold_left (fun idx paper =>
       match metadata paper with
       | None => idx
       | Some _ =>
           fold_left (fun idx r => match get_paper_key r with
                                   | Some k => index_add k r (mkSeedRef (input_doi paper)
                                                 (get_seed_paper_label paper)) idx
                                   | None => idx
                                   end) (rel paper) idx
       end) papers acc) = contribs key acc ++ flat_map (entry_contribs rel key) papers)
    by apply H.
  induction papers as [| p ps IH]; intros acc; simpl; [symmetry; apply app_nil_r |].
  rewrite IH, app_assoc. f_equal. unfold entry_contribs.
  destruct (metadata p); [| symmetry; apply app_nil_r].
  fold (seed_ref p). generalize acc. clear.
  induction (rel p) as [| r rs IH]; intros acc; simpl; [symmetry; apply app_nil_r |].
  destruct (get_paper_key r) as [k |]; [| apply IH].
  rewrite IH, index_add_contribs, <- app_assoc. f_equal.
  destruct (str_eqb k key); simpl; [| reflexivity].
  reflexivity.
Qed.

Lemma seed_keys_app (ps qs : list Entry) :
  seed_keys (ps ++ qs) =
  fold_left (fun acc paper =>
       match metadata paper with
       | Some m => match get_paper_key m with
                   | Some key => set_add key acc
                   | None => acc
                   end
       | None => acc
       end) qs (seed_keys ps).
Proof. unfold seed_keys. apply fold_left_app. Qed.

(** C10: in the analysis script, a seed entry whose metadata is present but
    has no key adds nothing to the seed set, while its reference list and
    its citing list are still indexed: every listed record with key [key]
    adds one contribution naming that entry's [input_doi] and label to the
    entry of [key], between the contributions of the entries before it and
    those after it. *)
Theorem keyless_seed_still_indexed (pre post : list Entry) (e : Entry) (m : PaperRecord) :
  metadata e = Some m -> get_paper_key m = None ->
  seed_keys (pre ++ e :: post) = seed_keys (pre ++ post) /\
  (forall key,
     contribs key (build_index references (pre ++ e :: post)) =
     contribs key (build_index references pre) ++
     repeat (mkSeedRef (input_doi e) (get_seed_paper_label e))
            (List.length (key_hits key (references e))) ++
     contribs key (build_index references post)) /\
  (forall key,
     contribs key (build_index cited_by (pre ++ e :: post)) =
     contribs key (build_index cited_by pre) ++
     repeat (mkSeedRef (input_doi e) (get_seed_paper_label e))
            (List.length (key_hits key (cited_by e))) ++
     contribs key (build_index cited_by post)).
Proof.
  intros Hm Hk. split; [| split].
  - rewrite !seed_keys_app. simpl. rewrite Hm, Hk. reflexivity.
  - intros key. rewrite !build_index_contribs, flat_map_app. simpl.
    unfold entry_contribs at 2. rewrite Hm. reflexivity.
  - intros key. rewrite !build_index_contribs, flat_map_app. simpl.
    unfold entry_contribs at 2. rewrite Hm. reflexivity.
Qed.

Definition titled (t : string) : PaperRecord :=
  mkPaper (lit t) [] [] [] [] [] None [] [].

(** A seed whose reference list holds the same paper twice. *)
Definition dup_ref_seed : Entry :=
  mkEntry (lit "10.1/a") (Some (titled "Paper A")) [titled "Paper X"; titled "Paper X"] [].

(** C1 (failing input): with the single seed [dup_ref_seed] and
    [k_cited = 2], the analysis script reports "Paper X" with [c_in = 2],
    listing the seed twice, while one seed key contributes; the
    visualization script, which keeps a set of seed keys, gives it
    [c_in = 1] and leaves it out at threshold 2. *)
Theorem duplicate_reference_counted_twice :
  map (fun e => (ae_key e, ae_count e, List.length (ae_seeds e)))
      (fst (analyze_citations [dup_ref_seed] 2 2)) = [(lit "title:paper x", 2, 2)] /\
  seed_keys [dup_ref_seed] = [lit "title:paper a"] /\
  map (fun kv => (fst kv, Visualize.n_count (snd kv)))
      (Visualize.g_cited_papers (Visualize.analyze_for_graph [dup_ref_seed] 1 1))
    = [(lit "title:paper x", Some 1)] /\
  Visualize.g_cited_papers (Visualize.analyze_for_graph [dup_ref_seed] 2 2) = [].
Proof. repeat split; vm_compute; reflexivity. Qed.

Definition venue_only : PaperRecord :=
  mkPaper [] [] [] [] [] [] None (lit "NeurIPS") [].

Definition keyless_seed : Entry :=
  mkEntry (lit "10.1/k") (Some venue_only) [titled "Paper X"] [titled "Paper C"].

Lemma keyless_seed_still_indexed_witness :
  metadata keyless_seed = Some venue_only /\ get_paper_key venue_only = None /\
  contribs (lit "title:paper x") (build_index references ([] ++ keyless_seed :: [dup_ref_seed])) =
  contribs (lit "title:paper x") (build_index references []) ++
  repeat (mkSeedRef (input_doi keyless_seed) (get_seed_paper_label keyless_seed))
         (List.length (key_hits (lit "title:paper x") (references keyless_seed))) ++
  contribs (lit "title:paper x") (build_index references [dup_ref_seed]).
Proof.
  assert (Hm : metadata keyless_seed = Some venue_only) by reflexivity.
  assert (Hk : get_paper_key venue_only = None) by (vm_compute; reflexivity).
  split; [exact Hm |]. split; [exact Hk |].
  exact (proj1 (proj2 (keyless_seed_still_indexed [] [dup_ref_seed] keyless_seed venue_only Hm Hk))
           (lit "title:paper x")).
Defined.

(** A malformed seed whose reference list contains the seed itself. *)
Definition self_ref_seed : Entry :=
  mkEntry (lit "10.1/a") (Some (titled "Paper A")) [titled "Paper A"; titled "Paper X"] [].

Definition first_cited (papers : list Entry) (k : Z) : AggEntry :=
  hd (mkAgg [] [] [] [] [] None [] 0 [] false) (fst (analyze_citations papers k k)).

Lemma results_exclude_seeds_witness :
  map ae_key (fst (analyze_citations [self_ref_seed] 1 1)) = [lit "title:paper x"] /\
  In (first_cited [self_ref_seed] 1) (fst (analyze_citations [self_ref_seed] 1 1)) /\
  ~ In (ae_key (first_cited [self_ref_seed] 1)) (seed_keys [self_ref_seed]).
Proof.
  assert (H : In (first_cited [self_ref_seed] 1) (fst (analyze_citations [self_ref_seed] 1 1)))
    by (vm_compute; left; reflexivity).
  split; [vm_compute; reflexivity |]. split; [exact H |].
  exact (results_exclude_seeds [self_ref_seed] 1 1 (first_cited [self_ref_seed] 1) (or_introl H)).
Defined.

End Aggregation.

(** ** The graph handed to the renderer *)
Module GraphEdges.
Import Visualize Common.

Lemma dict_mem_In {V} (k : pystr) (d : list (pystr * V)) :
  dict_mem k d = true <-> In k (map fst d).
Proof.
  unfold dict_mem. rewrite existsb_exists, in_map_iff. split.
  - intros [[k' v] [Hin E]]. apply str_eqb_eq in E. simpl in E. subst. exists (k, v). auto.
  - intros [[k' v] [E Hin]]. simpl in E. subst. exists (k, v). split; [exact Hin |].
    apply str_eqb_refl.
Qed.

Lemma edge_eqb_eq (e1 e2 : Edge) : edge_eqb e1 e2 = true <-> e1 = e2.
Proof.
  destruct e1 as [[a1 b1] c1], e2 as [[a2 b2] c2]. simpl.
  rewrite !andb_true_iff, !str_eqb_eq. split.
  - intros [[-> ->] ->]. reflexivity.
  - intros E. inversion E. auto.
Qed.

Lemma dedup_edges_In (x : Edge) (l : list Edge) : In x (dedup_edges l) -> In x l.
Proof.
  induction l as [| e l IH]; simpl; [intros [] |].
  intros [-> | H]; [left; reflexivity |]. right. apply IH.
  apply filter_In in H. apply H.
Qed.

Lemma dedup_edges_NoDup (l : list Edge) : NoDup (dedup_edges l).
Proof.
  induction l as [| e l IH]; simpl; constructor.
  - intros H. apply filter_In in H as [_ H]. rewrite (proj2 (edge_eqb_eq e e) eq_refl) in H.
    discriminate.
  - apply NoDup_filter, IH.
Qed.

Definition tag (e : Edge) : pystr := let '(_, _, t) := e in t.

Lemma process_paper_tags (st : LoopState) (p : Entry) :
  Forall (fun e => tag e = cites) (ls_edges st) ->
  Forall (fun e => tag e = cites) (ls_edges (process_paper st p)).
Proof.
  intros H. unfold process_paper.
  destruct (match metadata p with Some m => get_paper_key m | None => None end) as [sk |];
    [| exact H].
  assert (Hc : forall st', Forall (fun e => tag e = cites) (ls_edges st') ->
     Forall (fun e => tag e = cites) (ls_edges (fold_left (fun st c =>
           match get_paper_key c with
           | None => st
           | Some citing_key =>
               mkLoop (ls_refs st) (vindex_add citing_key c sk (ls_citing st))
                      (ls_edges st ++ [(citing_key, sk, cites)])
           end) (cited_by p) st'))).
  { induction (cited_by p) as [| c cs IH]; intros st' H'; simpl; [exact H' |].
    apply IH. destruct (get_paper_key c); [| exact H'].
    simpl. apply Forall_app; split; [exact H' | repeat constructor]. }
  apply Hc. clear Hc. revert st H.
  induction (references p) as [| r rs IH]; intros st' H'; simpl; [exact H' |].
  apply IH. destruct (get_paper_key r); [| exact H'].
  simpl. apply Forall_app; split; [exact H' | repeat constructor].
Qed.

Lemma loop_tags (papers : list Entry) (st : LoopState) :
  Forall (fun e => tag e = cites) (ls_edges st) ->
  Forall (fun e => tag e = cites) (ls_edges (fold_left process_paper papers st)).
Proof.
  revert st. induction papers as [| p ps IH]; intros st H; simpl; [exact H |].
  apply IH, process_paper_tags, H.
Qed.

(** The keys of the three node partitions. *)
Definition node_keys (g : Graph) : list pystr :=
  map fst (g_seed_papers g) ++ map fst (g_cited_papers g) ++ map fst (g_citing_papers g).

(** C9: every edge of the graph has both endpoints among the keys of the
    seed, cited and citing partitions, and no two edges share a
    (source, target) pair. *)
Theorem graph_edges_well_formed (papers : list Entry) (k_cited k_citing : Z) :
  let g := analyze_for_graph papers k_cited k_citing in
  (forall src tgt t, In (src, tgt, t) (g_edges g) ->
     In src (node_keys g) /\ In tgt (node_keys g)) /\
  NoDup (map (fun e : Edge => let '(src, tgt, _) := e in (src, tgt)) (g_edges g)).
Proof.
  intros g. split.
  - intros src tgt t Hin. unfold g, analyze_for_graph in *. simpl in *.
    apply dedup_edges_In, filter_In in Hin as [_ Hrel].
    apply andb_true_iff in Hrel as [Hs Ht].
    unfold node_keys. simpl. rewrite !in_app_iff, <- !dict_mem_In.
    apply orb_true_iff in Hs as [Hs | Hs]; apply orb_true_iff in Ht as [Ht | Ht];
      try (apply orb_true_iff in Hs as [Hs | Hs]); try (apply orb_true_iff in Ht as [Ht | Ht]);
      tauto.
  - apply NoDup_map_NoDup_ForallPairs; [| apply dedup_edges_NoDup].
    assert (Htag : Forall (fun e => tag e = cites) (g_edges g)).
    { unfold g, analyze_for_graph. simpl. apply Forall_forall. intros x Hx.
      apply dedup_edges_In, filter_In in Hx as [Hx _].
      pose proof (loop_tags papers (mkLoop [] [] []) (Forall_nil _)) as H.
      rewrite Forall_forall in H. apply H, Hx. }
    rewrite Forall_forall in Htag.
    intros [[a1 b1] c1] [[a2 b2] c2] H1 H2 E.
    apply Htag in H1. apply Htag in H2. simpl in H1, H2. inversion E. subst. reflexivity.
Qed.

End GraphEdges.

(** ** Node partitions of the graph and result lists of the analysis *)
Module Partitions.
Import Common.

(** Both scripts index a relation by key, keeping the first record and a
    collection of contributors; they differ in how a contributor is added. *)
Definition Idx (X : Type) := list (pystr * (PaperRecord * list X)).

Fixpoint gadd {X} (upd : X -> list X -> list X) (key : pystr) (r : PaperRecord) (x : X)
    (idx : Idx X) : Idx X :=
  match idx with
  | [] => [(key, (r, [x]))]
  | (k, (m, l)) :: rest =>
      if str_eqb k key then (k, (m, upd x l)) :: rest
      else (k, (m, l)) :: gadd upd key r x rest
  end.

Definition gcontribs {X} (key : pystr) (idx : Idx X) : list X :=
  match Aggregation.lookup_entry key idx with Some (_, l) => l | None => [] end.

Definition wf {X} (idx : Idx X) : Prop :=
  NoDup (map fst idx) /\ Forall (fun kv => snd (snd kv) <> []) idx.

(** The bodies of the two inner loops of [analyze_for_graph]. *)
Definition ref_step (seed_key : pystr) (st : Visualize.LoopState) (r : PaperRecord)
  : Visualize.LoopState :=
  match Visualize.get_paper_key r with
  | None => st
  | Some ref_key =>
      Visualize.mkLoop (Visualize.vindex_add ref_key r seed_key (Visualize.ls_refs st))
        (Visualize.ls_citing st)
        (Visualize.ls_edges st ++ [(seed_key, ref_key, Visualize.cites)])
  end.

Definition cit_step (seed_key : pystr) (st : Visualize.LoopState) (c : PaperRecord)
  : Visualize.LoopState :=
  match Visualize.get_paper_key c with
  | None => st
  | Some citing_key =>
      Visualize.mkLoop (Visualize.ls_refs st)
        (Visualize.vindex_add citing_key c seed_key (Visualize.ls_citing st))
        (Visualize.ls_edges st ++ [(citing_key, seed_key, Visualize.cites)])
  end.

(** The pairs (seed key, listed key) of the visualization script, one per
    listed record with a key, in the order of the loops. *)
Definition pairs_of (seed_key : pystr) (rs : list PaperRecord) : list (pystr * pystr) :=
  flat_map (fun r => match Visualize.get_paper_key r with
                     | Some k => [(seed_key, k)]
                     | None => []
                     end) rs.

Definition epairs (rel : Entry -> list PaperRecord) (p : Entry) : list (pystr * pystr) :=
  match metadata p with
  | Some m => match Visualize.get_paper_key m with
              | Some sk => pairs_of sk (rel p)
              | None => []
              end
  | None => []
  end.

Definition vpairs (rel : Entry -> list PaperRecord) (papers : list Entry)
  : list (pystr * pystr) := flat_map (epairs rel) papers.

(** The seed keys paired with [key]. *)
Definition seeds_for (key : pystr) (ps : list (pystr * pystr)) : list pystr :=
  map fst (filter (fun p => str_eqb (snd p) key) ps).

Fixpoint set_add_all (l s : list pystr) : list pystr :=
  match l with
  | [] => s
  | x :: l' => set_add_all l' (set_add x s)
  end.

(** Every record of the document: metadata, references and citing papers. *)
Definition doc_records (papers : list Entry) : list PaperRecord :=
  flat_map (fun e => match metadata e with Some m => [m] | None => [] end
                     ++ references e ++ cited_by e) papers.

Lemma index_add_gadd key r sr idx :
  Analyze.index_add key r sr idx = gadd (fun x l => l ++ [x]) key r sr idx.
Proof.
  induction idx as [| [k [m l]] rest IH]; simpl; [reflexivity |].
  destruct (str_eqb k key); [reflexivity | now rewrite IH].
Qed.

Lemma vindex_add_gadd key r sk idx :
  Visualize.vindex_add key r sk idx = gadd set_add key r sk idx.
Proof.
  induction idx as [| [k [m l]] rest IH]; simpl; [reflexivity |].
  destruct (str_eqb k key); [reflexivity | now rewrite IH].
Qed.

Lemma gadd_contribs {X} (upd : X -> list X -> list X) key k r x (idx : Idx X) :
  upd x [] = [x] ->
  gcontribs k (gadd upd key r x idx) =
  if str_eqb key k then upd x (gcontribs k idx) else gcontribs k idx.
Proof.
  intros Hu. unfold gcontribs. induction idx as [| [k' [m l]] rest IH]; simpl.
  - destruct (str_eqb key k); [rewrite Hu |]; reflexivity.
  - destruct (str_eqb k' key) eqn:E1.
    + apply str_eqb_eq in E1. subst k'. simpl. destruct (str_eqb key k); reflexivity.
    + simpl. destruct (str_eqb k' k) eqn:E2; [| exact IH].
      apply str_eqb_eq in E2. subst k'. rewrite (str_eqb_sym key k), E1. reflexivity.
Qed.

Lemma gadd_keys {X} upd key r x (idx : Idx X) k :
  In k (map fst (gadd upd key r x idx)) <-> k = key \/ In k (map fst idx).
Proof.
  induction idx as [| [k' [m l]] rest IH]; simpl; [intuition |].
  destruct (str_eqb k' key) eqn:E; simpl.
  - apply str_eqb_eq in E. subst. intuition congruence.
  - rewrite IH. intuition congruence.
Qed.

Lemma gadd_wf {X} upd key r (x : X) (idx : Idx X) :
  (forall l, upd x l <> []) -> wf idx -> wf (gadd upd key r x idx).
Proof.
  intros Hu [Hnd Hne]. induction idx as [| [k [m l]] rest IH]; simpl.
  - split; repeat constructor; [intros [] | simpl; discriminate].
  - inversion Hnd as [| ? ? Hk Hnd']; subst. inversion Hne as [| ? ? Hl Hne']; subst.
    destruct (str_eqb k key) eqn:E.
    + split; [exact Hnd | constructor; [apply Hu | exact Hne']].
    + destruct (IH Hnd' Hne') as [H1 H2]. split.
      * simpl. constructor; [| exact H1]. rewrite gadd_keys.
        intros [-> | H]; [rewrite str_eqb_refl in E; discriminate | contradiction].
      * constructor; [exact Hl | exact H2].
Qed.

Lemma lookup_In {V} (k : pystr) (v : V) (d : list (pystr * V)) :
  Aggregation.lookup_entry k d = Some v -> In (k, v) d.
Proof.
  induction d as [| [k' v'] d IH]; simpl; [discriminate |].
  destruct (str_eqb k' k) eqn:E.
  - intros H. inversion H; subst. apply str_eqb_eq in E; subst. left; reflexivity.
  - intros H. right. apply IH, H.
Qed.

Lemma In_lookup {V} (k : pystr) (v : V) (d : list (pystr * V)) :
  NoDup (map fst d) -> In (k, v) d -> Aggregation.lookup_entry k d = Some v.
Proof.
  induction d as [| [k' v'] d IH]; simpl; [intros _ [] |].
  intros Hnd [E | Hin]; inversion Hnd as [| ? ? Hk Hnd']; subst.
  - inversion E; subst. rewrite str_eqb_refl. reflexivity.
  - destruct (str_eqb k' k) eqn:E'.
    + apply str_eqb_eq in E'; subst. exfalso. apply Hk. apply in_map_iff.
      exists (k, v); auto.
    + apply IH; assumption.
Qed.

Lemma wf_entry {X} (idx : Idx X) (key : pystr) (P : list X -> Prop) :
  wf idx ->
  ((exists m l, In (key, (m, l)) idx /\ P l) <->
   gcontribs key idx <> [] /\ P (gcontribs key idx)).
Proof.
  intros [Hnd Hne]. unfold gcontribs. split.
  - intros (m & l & Hin & HP). rewrite (In_lookup key (m, l) idx Hnd Hin).
    split; [| exact HP]. rewrite Forall_forall in Hne. exact (Hne _ Hin).
  - destruct (Aggregation.lookup_entry key idx) as [[m l] |] eqn:E; [| intros [H _]; congruence].
    intros [_ HP]. exists m, l. split; [apply lookup_In, E | exact HP].
Qed.

Lemma app_single_nonempty {X} (x : X) (l : list X) : l ++ [x] <> [].
Proof. destruct l; simpl; discriminate. Qed.

Lemma set_add_nonempty (x : pystr) (l : list pystr) : set_add x l <> [].
Proof.
  unfold set_add. destruct (set_mem x l) eqn:E.
  - apply set_mem_In in E. destruct l; [destruct E | discriminate].
  - apply app_single_nonempty.
Qed.

Lemma build_index_wf (rel : Entry -> list PaperRecord) (papers : list Entry) :
  wf (Analyze.build_index rel papers).
Proof.
  unfold Analyze.build_index.
  assert (H0 : wf ([] : Analyze.Index)) by (split; constructor).
  revert H0. generalize (@nil (pystr * (PaperRecord * list Analyze.SeedRef))).
  induction papers as [| p ps IH]; intros acc Hacc; simpl; [exact Hacc |].
  apply IH. destruct (metadata p); [| exact Hacc].
  revert acc Hacc. induction (rel p) as [| r rs IHr]; intros acc Hacc; simpl; [exact Hacc |].
  apply IHr. destruct (Analyze.get_paper_key r); [| exact Hacc].
  rewrite index_add_gadd. apply gadd_wf; [intros l; apply app_single_nonempty | exact Hacc].
Qed.

Lemma analysis_keys (rel : Entry -> list PaperRecord) (papers : list Entry)
    (seeds : list pystr) (k : Z) (key : pystr) :
  In key (map Analyze.ae_key
                (Analyze.sort_entries (Analyze.filter_index (Analyze.build_index rel papers) seeds k))) <->
  set_mem key seeds = false /\
  gcontribs key (Analyze.build_index rel papers) <> [] /\
  (k <= Z.of_nat (List.length (gcontribs key (Analyze.build_index rel papers))))%Z.
Proof.
  pose proof (wf_entry _ key (fun l => (k <= Z.of_nat (List.length l))%Z)
                (build_index_wf rel papers)) as W.
  rewrite in_map_iff. split.
  - intros [e [He Hin]].
    rewrite Aggregation.sort_entries_In, Aggregation.filter_index_In in Hin.
    destruct Hin as (key' & m & l & Hin & Hs & Hk & ->). simpl in He. subst key'.
    destruct (proj1 W (ex_intro _ m (ex_intro _ l (conj Hin Hk)))) as [H1 H2]. auto.
  - intros (Hs & Hne & Hk). destruct (proj2 W (conj Hne Hk)) as (m & l & Hin & Hk').
    exists (Analyze.mkAgg key (doi m) (arxiv_id m) (title m) (authors m) (year m) (venue m)
              (List.length l) l false).
    split; [reflexivity |].
    rewrite Aggregation.sort_entries_In, Aggregation.filter_index_In.
    exists key, m, l. auto.
Qed.

Lemma dict_set_keys {V} (k k' : pystr) (v : V) (d : list (pystr * V)) :
  In k (map fst (Visualize.dict_set k' v d)) <-> k = k' \/ In k (map fst d).
Proof.
  induction d as [| [k'' v''] d IH]; simpl; [intuition |].
  destruct (str_eqb k'' k') eqn:E; simpl.
  - apply str_eqb_eq in E. subst. intuition congruence.
  - rewrite IH. intuition congruence.
Qed.

Lemma threshold_mem (idx : Visualize.VIndex) (seeds : list (pystr * Visualize.Node))
    (k : Z) (key : pystr) :
  Visualize.dict_mem key (Visualize.threshold idx seeds k) = true <->
  exists m s, In (key, (m, s)) idx /\ (k <= Z.of_nat (List.length s))%Z /\
              Visualize.dict_mem key seeds = false.
Proof.
  unfold Visualize.threshold.
  enough (H : forall acc,
    Visualize.dict_mem key (fold_left (fun acc '(key, (m, s)) =>
       if (k <=? Z.of_nat (List.length s))%Z && negb (Visualize.dict_mem key seeds) then
         Visualize.dict_set key (Visualize.mkNode key (title m) (authors m) (year m) (venue m)
                                   (Some (List.length s))) acc
       else acc) idx acc) = true <->
    Visualize.dict_mem key acc = true \/
    exists m s, In (key, (m, s)) idx /\ (k <= Z.of_nat (List.length s))%Z /\
                Visualize.dict_mem key seeds = false).
  { rewrite H. simpl. intuition discriminate. }
  induction idx as [| [k' [m s]] idx IH]; intros acc; simpl.
  - split; [auto |]. intros [H | (m & s & [] & _)]. exact H.
  - rewrite IH. destruct ((k <=? Z.of_nat (List.length s))%Z && negb (Visualize.dict_mem k' seeds))
      eqn:E.
    + apply andb_true_iff in E. destruct E as [E1 E2]. apply Z.leb_le in E1.
      apply negb_true_iff in E2.
      rewrite !GraphEdges.dict_mem_In, dict_set_keys. split.
      * intros [[-> | H] | (m' & s' & Hin & H1 & H2)].
        -- right. exists m, s. auto.
        -- left. exact H.
        -- right. exists m', s'. auto.
      * intros [H | (m' & s' & [Heq | Hin] & H1 & H2)].
        -- left. right. exact H.
        -- inversion Heq; subst. left. left. reflexivity.
        -- right. exists m', s'. auto.
    + split.
      * intros [H | (m' & s' & Hin & H1 & H2)]; [left; exact H |].
        right. exists m', s'. auto.
      * intros [H | (m' & s' & [Heq | Hin] & H1 & H2)]; [left; exact H | | right; exists m', s'; auto].
        inversion Heq; subst. apply Z.leb_le in H1. rewrite H1, H2 in E. discriminate.
Qed.

Lemma seeds_for_app (key : pystr) (l1 l2 : list (pystr * pystr)) :
  seeds_for key (l1 ++ l2) = seeds_for key l1 ++ seeds_for key l2.
Proof. unfold seeds_for. rewrite filter_app, map_app. reflexivity. Qed.

Lemma set_add_all_app (l1 l2 s : list pystr) :
  set_add_all (l1 ++ l2) s = set_add_all l2 (set_add_all l1 s).
Proof. revert s. induction l1 as [| x l1 IH]; intros s; simpl; [reflexivity | apply IH]. Qed.

Lemma vindex_contribs (key rk : pystr) (r : PaperRecord) (sk : pystr) (idx : Visualize.VIndex) :
  gcontribs key (Visualize.vindex_add rk r sk idx) =
  if str_eqb rk key then set_add sk (gcontribs key idx) else gcontribs key idx.
Proof. rewrite vindex_add_gadd. apply gadd_contribs. reflexivity. Qed.

Lemma vindex_wf (key : pystr) (r : PaperRecord) (sk : pystr) (idx : Visualize.VIndex) :
  wf idx -> wf (Visualize.vindex_add key r sk idx).
Proof. rewrite vindex_add_gadd. apply gadd_wf. intros l. apply set_add_nonempty. Qed.

Lemma ref_fold_spec (sk key : pystr) (rs : list PaperRecord) (st : Visualize.LoopState) :
  Visualize.ls_citing (fold_left (ref_step sk) rs st) = Visualize.ls_citing st /\
  gcontribs key (Visualize.ls_refs (fold_left (ref_step sk) rs st)) =
  set_add_all (seeds_for key (pairs_of sk rs)) (gcontribs key (Visualize.ls_refs st)) /\
  (wf (Visualize.ls_refs st) -> wf (Visualize.ls_refs (fold_left (ref_step sk) rs st))).
Proof.
  revert st. induction rs as [| r rs IH]; intros st; [split; [| split]; auto |].
  cbn [fold_left]. destruct (IH (ref_step sk st r)) as [I1 [I2 I3]].
  unfold pairs_of. cbn [flat_map]. fold (pairs_of sk rs).
  assert (S : Visualize.ls_citing (ref_step sk st r) = Visualize.ls_citing st /\
              gcontribs key (Visualize.ls_refs (ref_step sk st r)) =
              set_add_all (seeds_for key (match Visualize.get_paper_key r with
                                          | Some k => [(sk, k)] | None => [] end))
                          (gcontribs key (Visualize.ls_refs st)) /\
              (wf (Visualize.ls_refs st) -> wf (Visualize.ls_refs (ref_step sk st r)))).
  { unfold ref_step. destruct (Visualize.get_paper_key r) as [k |]; simpl; [| split; [reflexivity | split; [reflexivity | exact (fun H => H)]]].
    split; [reflexivity |]. split; [| intros Hw; apply vindex_wf, Hw].
    rewrite vindex_contribs. unfold seeds_for. simpl.
    destruct (str_eqb k key); reflexivity. }
  destruct S as [S1 [S2 S3]].
  split; [congruence |]. split.
  - rewrite I2, S2, seeds_for_app, set_add_all_app. reflexivity.
  - intros Hw. apply I3, S3, Hw.
Qed.

Lemma cit_fold_spec (sk key : pystr) (cs : list PaperRecord) (st : Visualize.LoopState) :
  Visualize.ls_refs (fold_left (cit_step sk) cs st) = Visualize.ls_refs st /\
  gcontribs key (Visualize.ls_citing (fold_left (cit_step sk) cs st)) =
  set_add_all (seeds_for key (pairs_of sk cs)) (gcontribs key (Visualize.ls_citing st)) /\
  (wf (Visualize.ls_citing st) -> wf (Visualize.ls_citing (fold_left (cit_step sk) cs st))).
Proof.
  revert st. induction cs as [| c cs IH]; intros st; [split; [| split]; auto |].
  cbn [fold_left]. destruct (IH (cit_step sk st c)) as [I1 [I2 I3]].
  unfold pairs_of. cbn [flat_map]. fold (pairs_of sk cs).
  assert (S : Visualize.ls_refs (cit_step sk st c) = Visualize.ls_refs st /\
              gcontribs key (Visualize.ls_citing (cit_step sk st c)) =
              set_add_all (seeds_for key (match Visualize.get_paper_key c with
                                          | Some k => [(sk, k)] | None => [] end))
                          (gcontribs key (Visualize.ls_citing st)) /\
              (wf (Visualize.ls_citing st) -> wf (Visualize.ls_citing (cit_step sk st c)))).
  { unfold cit_step. destruct (Visualize.get_paper_key c) as [k |]; simpl; [| split; [reflexivity | split; [reflexivity | exact (fun H => H)]]].
    split; [reflexivity |]. split; [| intros Hw; apply vindex_wf, Hw].
    rewrite vindex_contribs. unfold seeds_for. simpl.
    destruct (str_eqb k key); reflexivity. }
  destruct S as [S1 [S2 S3]].
  split; [congruence |]. split.
  - rewrite I2, S2, seeds_for_app, set_add_all_app. reflexivity.
  - intros Hw. apply I3, S3, Hw.
Qed.

Lemma process_paper_eq (st : Visualize.LoopState) (p : Entry) :
  Visualize.process_paper st p =
  match match metadata p with Some m => Visualize.get_paper_key m | None => None end with
  | None => st
  | Some sk => fold_left (cit_step sk) (cited_by p) (fold_left (ref_step sk) (references p) st)
  end.
Proof. reflexivity. Qed.

Lemma loop_spec (papers : list Entry) (st : Visualize.LoopState) (key : pystr) :
  gcontribs key (Visualize.ls_refs (fold_left Visualize.process_paper papers st)) =
  set_add_all (seeds_for key (vpairs references papers)) (gcontribs key (Visualize.ls_refs st)) /\
  gcontribs key (Visualize.ls_citing (fold_left Visualize.process_paper papers st)) =
  set_add_all (seeds_for key (vpairs cited_by papers)) (gcontribs key (Visualize.ls_citing st)) /\
  (wf (Visualize.ls_refs st) -> wf (Visualize.ls_refs (fold_left Visualize.process_paper papers st))) /\
  (wf (Visualize.ls_citing st) -> wf (Visualize.ls_citing (fold_left Visualize.process_paper papers st))).
Proof.
  revert st. induction papers as [| p ps IH]; intros st; [split; [| split; [| split]]; auto |].
  cbn [fold_left]. destruct (IH (Visualize.process_paper st p)) as [I1 [I2 [I3 I4]]].
  unfold vpairs. cbn [flat_map]. fold (vpairs references ps). fold (vpairs cited_by ps).
  assert (S :
    gcontribs key (Visualize.ls_refs (Visualize.process_paper st p)) =
    set_add_all (seeds_for key (epairs references p)) (gcontribs key (Visualize.ls_refs st)) /\
    gcontribs key (Visualize.ls_citing (Visualize.process_paper st p)) =
    set_add_all (seeds_for key (epairs cited_by p)) (gcontribs key (Visualize.ls_citing st)) /\
    (wf (Visualize.ls_refs st) -> wf (Visualize.ls_refs (Visualize.process_paper st p))) /\
    (wf (Visualize.ls_citing st) -> wf (Visualize.ls_citing (Visualize.process_paper st p)))).
  { rewrite process_paper_eq. unfold epairs.
    destruct (metadata p) as [m |]; [destruct (Visualize.get_paper_key m) as [sk |] |];
      [| split; [reflexivity | split; [reflexivity | split; exact (fun H => H)]]
       | split; [reflexivity | split; [reflexivity | split; exact (fun H => H)]]].
    destruct (ref_fold_spec sk key (references p) st) as [R1 [R2 R3]].
    destruct (cit_fold_spec sk key (cited_by p) (fold_left (ref_step sk) (references p) st))
      as [C1 [C2 C3]].
    rewrite C1, R2, C2, R1. split; [reflexivity |]. split; [reflexivity |]. split.
    - intros Hw. apply R3, Hw.
    - intros Hw. apply C3. rewrite R1. exact Hw. }
  destruct S as [S1 [S2 [S3 S4]]].
  rewrite I1, I2, S1, S2, !seeds_for_app, !set_add_all_app.
  split; [reflexivity |]. split; [reflexivity |].
  split; intros Hw; [apply I3, S3, Hw | apply I4, S4, Hw].
Qed.

Lemma NoDup_seeds_for (key : pystr) (ps : list (pystr * pystr)) :
  NoDup ps -> NoDup (seeds_for key ps).
Proof.
  intros H. unfold seeds_for. apply NoDup_map_NoDup_ForallPairs; [| apply NoDup_filter, H].
  intros [a b] [c d] Hx Hy E. apply filter_In in Hx, Hy. simpl in *.
  destruct Hx as [_ Hx]; destruct Hy as [_ Hy]. apply str_eqb_eq in Hx, Hy. subst. reflexivity.
Qed.

Lemma set_add_all_NoDup (l s : list pystr) :
  NoDup l -> (forall x, In x l -> ~ In x s) -> set_add_all l s = s ++ l.
Proof.
  revert s. induction l as [| x l IH]; intros s Hnd Hdis; simpl; [symmetry; apply app_nil_r |].
  inversion Hnd as [| ? ? Hx Hnd']; subst.
  assert (E : set_add x s = s ++ [x]).
  { unfold set_add. destruct (set_mem x s) eqn:Es; [| reflexivity].
    apply set_mem_In in Es. exfalso. exact (Hdis x (or_introl eq_refl) Es). }
  rewrite E, IH; [rewrite <- app_assoc; reflexivity | exact Hnd' |].
  intros y Hy. rewrite in_app_iff. intros [Hs | [<- | []]]; [| contradiction].
  exact (Hdis y (or_intror Hy) Hs).
Qed.

Lemma graph_contribs (papers : list Entry) (key : pystr) :
  NoDup (vpairs references papers) -> NoDup (vpairs cited_by papers) ->
  let st := fold_left Visualize.process_paper papers (Visualize.mkLoop [] [] []) in
  gcontribs key (Visualize.ls_refs st) = seeds_for key (vpairs references papers) /\
  gcontribs key (Visualize.ls_citing st) = seeds_for key (vpairs cited_by papers) /\
  wf (Visualize.ls_refs st) /\ wf (Visualize.ls_citing st).
Proof.
  intros H1 H2 st.
  destruct (loop_spec papers (Visualize.mkLoop [] [] []) key) as [L1 [L2 [L3 L4]]].
  fold st in L1, L2, L3, L4.
  rewrite L1, L2.
  replace (gcontribs key (Visualize.ls_refs (Visualize.mkLoop [] [] []))) with (@nil pystr)
    by reflexivity.
  replace (gcontribs key (Visualize.ls_citing (Visualize.mkLoop [] [] []))) with (@nil pystr)
    by reflexivity.
  rewrite !set_add_all_NoDup by first [apply NoDup_seeds_for; assumption | intros x _ []].
  split; [reflexivity |]. split; [reflexivity |].
  split; [apply L3 | apply L4]; split; constructor.
Qed.

Lemma key_hits_pairs (key sk : pystr) (rs : list PaperRecord) :
  (forall r, In r rs -> Analyze.get_paper_key r = Visualize.get_paper_key r) ->
  List.length (Aggregation.key_hits key rs) = List.length (seeds_for key (pairs_of sk rs)).
Proof.
  induction rs as [| r rs IH]; intros Hk; [reflexivity |].
  unfold Aggregation.key_hits. cbn [filter]. fold (Aggregation.key_hits key rs).
  unfold pairs_of. cbn [flat_map]. fold (pairs_of sk rs).
  rewrite seeds_for_app, length_app, (Hk r (or_introl eq_refl)).
  assert (IH' := IH (fun r' Hr' => Hk r' (or_intror Hr'))).
  destruct (Visualize.get_paper_key r) as [rk |]; [| exact IH'].
  unfold seeds_for at 1. simpl.
  destruct (str_eqb rk key); simpl; rewrite IH'; reflexivity.
Qed.

Lemma contribs_length (rel : Entry -> list PaperRecord) (papers : list Entry) (key : pystr) :
  (forall p r, In p papers -> In r (rel p) ->
     Analyze.get_paper_key r = Visualize.get_paper_key r) ->
  (forall p m, In p papers -> metadata p = Some m ->
     Analyze.get_paper_key m = Visualize.get_paper_key m /\ Analyze.get_paper_key m <> None) ->
  List.length (gcontribs key (Analyze.build_index rel papers)) =
  List.length (seeds_for key (vpairs rel papers)).
Proof.
  intros Hrel Hmeta. change (gcontribs key (Analyze.build_index rel papers))
    with (Aggregation.contribs key (Analyze.build_index rel papers)).
  rewrite Aggregation.build_index_contribs.
  induction papers as [| p ps IH]; [reflexivity |].
  unfold vpairs. cbn [flat_map]. fold (vpairs rel ps).
  rewrite seeds_for_app, !length_app.
  rewrite IH; [| intros p' r Hp' Hr; apply (Hrel p' r); [right; exact Hp' | exact Hr]
              | intros p' m' Hp' Hm'; apply (Hmeta p' m'); [right; exact Hp' | exact Hm']].
  f_equal. unfold Aggregation.entry_contribs, epairs.
  destruct (metadata p) as [m |] eqn:Em; [| reflexivity].
  destruct (Hmeta p m (or_introl eq_refl) Em) as [E Hn]. rewrite <- E.
  destruct (Analyze.get_paper_key m) as [sk |]; [| contradiction].
  rewrite repeat_length. apply key_hits_pairs.
  intros r Hr. exact (Hrel p r (or_introl eq_refl) Hr).
Qed.

Lemma seeds_agree (papers : list Entry) :
  (forall p m, In p papers -> metadata p = Some m ->
     Analyze.get_paper_key m = Visualize.get_paper_key m) ->
  forall key, set_mem key (Analyze.seed_keys papers) =
              Visualize.dict_mem key (Visualize.seed_papers papers).
Proof.
  intros Hmeta. unfold Analyze.seed_keys, Visualize.seed_papers.
  assert (H0 : forall key, set_mem key [] = Visualize.dict_mem key ([] : list (pystr * Visualize.Node)))
    by reflexivity.
  revert H0 Hmeta. generalize (@nil pystr) (@nil (pystr * Visualize.Node)).
  induction papers as [| p ps IH]; intros s d Hsd Hmeta key; simpl; [apply Hsd |].
  apply IH; [| intros p' m Hp' Hm; apply (Hmeta p' m); [right; exact Hp' | exact Hm]].
  intros key'. destruct (metadata p) as [m |] eqn:Em; [| apply Hsd].
  rewrite (Hmeta p m (or_introl eq_refl) Em).
  destruct (Visualize.get_paper_key m) as [k |]; [| apply Hsd].
  apply eq_iff_eq_true.
  rewrite set_mem_In, GraphEdges.dict_mem_In, set_add_In, dict_set_keys.
  rewrite <- (set_mem_In key' s), <- (GraphEdges.dict_mem_In key' d), Hsd. tauto.
Qed.

Lemma side_agree (rel : Entry -> list PaperRecord) (papers : list Entry)
    (vidx : Visualize.VIndex) (k : Z) (key : pystr) :
  (forall p r, In p papers -> In r (rel p) ->
     Analyze.get_paper_key r = Visualize.get_paper_key r) ->
  (forall p m, In p papers -> metadata p = Some m ->
     Analyze.get_paper_key m = Visualize.get_paper_key m /\ Analyze.get_paper_key m <> None) ->
  gcontribs key vidx = seeds_for key (vpairs rel papers) -> wf vidx ->
  (In key (map Analyze.ae_key
     (Analyze.sort_entries (Analyze.filter_index (Analyze.build_index rel papers)
                              (Analyze.seed_keys papers) k))) <->
   Visualize.dict_mem key (Visualize.threshold vidx (Visualize.seed_papers papers) k) = true).
Proof.
  intros Hrel Hmeta Hv Hw.
  rewrite analysis_keys, threshold_mem.
  rewrite (wf_entry vidx key (fun s => (k <= Z.of_nat (List.length s))%Z /\
             Visualize.dict_mem key (Visualize.seed_papers papers) = false) Hw).
  rewrite (seeds_agree papers (fun p m Hp Hm => proj1 (Hmeta p m Hp Hm)) key).
  pose proof (contribs_length rel papers key Hrel Hmeta) as HL. rewrite <- Hv in HL.
  rewrite HL.
  assert (Hne : gcontribs key (Analyze.build_index rel papers) <> [] <-> gcontribs key vidx <> []).
  { split; intros H E; apply H; apply length_zero_iff_nil;
      [rewrite HL | rewrite <- HL]; rewrite E; reflexivity. }
  rewrite Hne. tauto.
Qed.

Definition titled_doi_seed : Entry :=
  mkEntry (lit "10.1/a") (Some (Aggregation.titled "Paper A"))
          [mkPaper (lit "Paper X") (lit "10.1/x") [] [] [] [] None [] []] [].

Definition oa_only (w : string) : PaperRecord :=
  mkPaper [] [] [] (lit w) [] [] None [] [].

(** Two seeds known by their OpenAlex ids only, with references and
    citing papers of the same kind. *)
Definition oa_doc : list Entry :=
  [mkEntry (lit "10.1/a") (Some (oa_only "WA")) [oa_only "WX"; oa_only "WY"] [oa_only "WC"];
   mkEntry (lit "10.1/b") (Some (oa_only "WB")) [oa_only "WX"] [oa_only "WC"; oa_only "WD"]].

(** A seed that lists the same reference twice. *)
Definition dup_listing_doc : list Entry :=
  [mkEntry (lit "10.1/a") (Some (oa_only "WA")) [oa_only "WX"; oa_only "WX"] []].

(** A seed with a key and a seed whose metadata has none, both citing the
    same paper. *)
Definition keyless_seed_doc : list Entry :=
  [mkEntry (lit "10.1/a") (Some (oa_only "WA")) [oa_only "WX"] [];
   mkEntry (lit "10.1/b") (Some empty_paper) [oa_only "WX"] []].

(** C3 (amended). When the key functions of the two scripts agree on every
    record of the document, every seed entry with metadata has a key, and
    no pair (seed key, listed key) occurs twice among the references nor
    among the citing papers, the keys of the cited-result list of the
    analysis are exactly the keys of the cited partition of the graph, and
    likewise for the citing-result list and the citing partition.  The
    third condition is needed only because the analysis counts list
    entries where the graph counts distinct seed keys (the counting defect
    of C1).  Records of the model carry string titles (a missing title is
    the empty string), so the documents covered are those whose records
    have no null title: on a null title the analysis's sort by
    [(-count, title)] can raise [TypeError] when it meets a string title of
    the same count, and the analysis returns nothing. *)
Theorem partitions_agree (papers : list Entry) (k_cited k_citing : Z) :
  (forall r, In r (doc_records papers) ->
     Analyze.get_paper_key r = Visualize.get_paper_key r) ->
  (forall e m, In e papers -> metadata e = Some m -> Analyze.get_paper_key m <> None) ->
  NoDup (vpairs references papers) -> NoDup (vpairs cited_by papers) ->
  forall key,
    (In key (map Analyze.ae_key (fst (Analyze.analyze_citations papers k_cited k_citing))) <->
     Visualize.dict_mem key
       (Visualize.g_cited_papers (Visualize.analyze_for_graph papers k_cited k_citing)) = true) /\
    (In key (map Analyze.ae_key (snd (Analyze.analyze_citations papers k_cited k_citing))) <->
     Visualize.dict_mem key
       (Visualize.g_citing_papers (Visualize.analyze_for_graph papers k_cited k_citing)) = true).
Proof.
  intros Hk Hseed Hr Hc key.
  assert (Hrec : forall p r, In p papers ->
            In r (references p) \/ In r (cited_by p) \/ metadata p = Some r ->
            Analyze.get_paper_key r = Visualize.get_paper_key r).
  { intros p r Hp Hr'. apply Hk. unfold doc_records. apply in_flat_map.
    exists p. split; [exact Hp |]. rewrite !in_app_iff.
    destruct Hr' as [H | [H | H]]; [right; left; exact H | right; right; exact H |].
    left. rewrite H. left. reflexivity. }
  assert (Hmeta : forall p m, In p papers -> metadata p = Some m ->
            Analyze.get_paper_key m = Visualize.get_paper_key m /\
            Analyze.get_paper_key m <> None).
  { intros p m Hp Hm. split; [apply (Hrec p m Hp); right; right; exact Hm |].
    exact (Hseed p m Hp Hm). }
  destruct (graph_contribs papers key Hr Hc) as [G1 [G2 [G3 G4]]].
  split.
  - exact (side_agree references papers _ k_cited key
             (fun p r Hp Hr' => Hrec p r Hp (or_introl Hr')) Hmeta G1 G3).
  - exact (side_agree cited_by papers _ k_citing key
             (fun p r Hp Hr' => Hrec p r Hp (or_intror (or_introl Hr'))) Hmeta G2 G4).
Qed.

Lemma partitions_agree_witness :
  map Analyze.ae_key (fst (Analyze.analyze_citations oa_doc 2 2)) = [lit "openalex:wx"] /\
  map Analyze.ae_key (snd (Analyze.analyze_citations oa_doc 2 2)) = [lit "openalex:wc"] /\
  ((In (lit "openalex:wx") (map Analyze.ae_key (fst (Analyze.analyze_citations oa_doc 2 2))) <->
    Visualize.dict_mem (lit "openalex:wx")
      (Visualize.g_cited_papers (Visualize.analyze_for_graph oa_doc 2 2)) = true) /\
   (In (lit "openalex:wx") (map Analyze.ae_key (snd (Analyze.analyze_citations oa_doc 2 2))) <->
    Visualize.dict_mem (lit "openalex:wx")
      (Visualize.g_citing_papers (Visualize.analyze_for_graph oa_doc 2 2)) = true)).
Proof.
  split; [vm_compute; reflexivity |]. split; [vm_compute; reflexivity |].
  assert (Hd : doc_records oa_doc =
    [oa_only "WA"; oa_only "WX"; oa_only "WY"; oa_only "WC";
     oa_only "WB"; oa_only "WX"; oa_only "WC"; oa_only "WD"]) by reflexivity.
  apply (partitions_agree oa_doc 2 2).
  - intros r Hr. rewrite Hd in Hr.
    repeat destruct Hr as [<- | Hr]; try (vm_compute; reflexivity). destruct Hr.
  - intros e m He Hm. destruct He as [<- | [<- | []]]; simpl in Hm; inversion Hm; subst;
      intros E; vm_compute in E; discriminate E.
  - vm_compute. repeat constructor;
      intros H; repeat destruct H as [H | H]; try discriminate H; contradiction.
  - vm_compute. repeat constructor;
      intros H; repeat destruct H as [H | H]; try discriminate H; contradiction.
Defined.

(** C3 counterexample, one divergence per condition.  For a seed citing a
    titled paper that has a DOI, the analysis keys the reference by its
    title and the graph by its DOI.  A seed listing a reference twice gives
    it a count of 2 in the analysis and 1 in the graph.  A seed without a
    key adds to the counts of the analysis and not to those of the graph. *)
Example partitions_differ :
  map Analyze.ae_key (fst (Analyze.analyze_citations [titled_doi_seed] 1 1))
    = [lit "title:paper x"] /\
  map fst (Visualize.g_cited_papers (Visualize.analyze_for_graph [titled_doi_seed] 1 1))
    = [lit "doi:10.1/x"] /\
  map Analyze.ae_key (fst (Analyze.analyze_citations dup_listing_doc 2 2))
    = [lit "openalex:wx"] /\
  map fst (Visualize.g_cited_papers (Visualize.analyze_for_graph dup_listing_doc 2 2)) = [] /\
  map Analyze.ae_key (fst (Analyze.analyze_citations keyless_seed_doc 2 2))
    = [lit "openalex:wx"] /\
  map fst (Visualize.g_cited_papers (Visualize.analyze_for_graph keyless_seed_doc 2 2)) = [].
Proof. repeat split; vm_compute; reflexivity. Qed.

End Partitions.

(** ** Merging duplicate records *)
Module Merge.
Import Fetch Common.

(** The value of one of the merged fields. *)
Inductive FieldVal :=
| VStr (s : pystr)
| VList (l : list pystr)
| VYear (y : option Z).

Definition get_field (f : Field) (p : PaperRecord) : FieldVal :=
  match f with
  | FDoi => VStr (doi p)
  | FArxivId => VStr (arxiv_id p)
  | FTitle => VStr (title p)
  | FAuthors => VList (authors p)
  | FYear => VYear (year p)
  | FVenue => VStr (venue p)
  end.

Definition field_eq_dec (f g : Field) : {f = g} + {f <> g}.
Proof. decide equality. Defined.

Lemma get_copy_field (f g : Field) (src dst : PaperRecord) :
  get_field f (copy_field g src dst) =
  if field_eq_dec f g then get_field f src else get_field f dst.
Proof. destruct f, g; reflexivity. Qed.

Lemma get_set_source (f : Field) (s : pystr) (p : PaperRecord) :
  get_field f (set_source s p) = get_field f p.
Proof. destruct f; reflexivity. Qed.

Lemma length_store (h : Heap) (a : addr) (p : PaperRecord) :
  List.length (store h a p) = List.length h.
Proof.
  revert a. induction h as [| q h IH]; intros [| a]; simpl; try reflexivity. f_equal. apply IH.
Qed.

Lemma load_store_same (h : Heap) (a : addr) (p : PaperRecord) :
  a < List.length h -> load (store h a p) a = p.
Proof.
  unfold load. revert a. induction h as [| q h IH]; intros [| a] H; simpl in *; try lia.
  - reflexivity.
  - apply IH. lia.
Qed.

Lemma load_store_other (h : Heap) (a b : addr) (p : PaperRecord) :
  b <> a -> load (store h a p) b = load h b.
Proof.
  unfold load. revert a b. induction h as [| q h IH]; intros [| a] [| b] H; simpl; try reflexivity.
  - contradiction.
  - apply IH. lia.
Qed.

(** The field update of the [else] branch, for one field. *)
Definition field_step (f : Field) (existing paper : PaperRecord) : FieldVal :=
  if negb (field_truthy f existing) && field_truthy f paper
  then get_field f paper else get_field f existing.

Definition fields_fold (e a : addr) (fs : list Field) (h : Heap) : Heap :=
  fold_left
    (fun h f =>
       let existing := load h e in
       let paper := load h a in
       if negb (field_truthy f existing) && field_truthy f paper
       then store h e (copy_field f paper existing) else h) fs h.

Lemma field_truthy_get (f : Field) (p q : PaperRecord) :
  get_field f p = get_field f q -> field_truthy f p = field_truthy f q.
Proof. destruct f; simpl; intros E; inversion E; reflexivity. Qed.

Lemma fields_fold_spec (e a : addr) (fs : list Field) (h : Heap) :
  e <> a -> e < List.length h -> NoDup fs ->
  List.length (fields_fold e a fs h) = List.length h /\
  (forall b, b <> e -> load (fields_fold e a fs h) b = load h b) /\
  (forall f, get_field f (load (fields_fold e a fs h) e) =
             if in_dec field_eq_dec f fs then field_step f (load h e) (load h a)
             else get_field f (load h e)).
Proof.
  intros Hea He Hnd. revert h He. induction Hnd as [| g fs Hg Hnd IH]; intros h He.
  - split; [reflexivity |]. split; [reflexivity |]. intros f. reflexivity.
  - pose (h1 := if negb (field_truthy g (load h e)) && field_truthy g (load h a)
                 then store h e (copy_field g (load h a) (load h e)) else h).
    change (fields_fold e a (g :: fs) h) with (fields_fold e a fs h1).
    assert (Hlen1 : List.length h1 = List.length h).
    { unfold h1. destruct (_ && _); [apply length_store | reflexivity]. }
    assert (Hoth1 : forall b, b <> e -> load h1 b = load h b).
    { intros b Hb. unfold h1. destruct (_ && _); [apply load_store_other, Hb | reflexivity]. }
    assert (He1 : forall f, get_field f (load h1 e) =
                  if field_eq_dec f g then field_step g (load h e) (load h a)
                  else get_field f (load h e)).
    { intros f. unfold h1, field_step. destruct (_ && _) eqn:E.
      - rewrite load_store_same by exact He. rewrite get_copy_field.
        destruct (field_eq_dec f g) as [-> |]; reflexivity.
      - destruct (field_eq_dec f g) as [-> |]; reflexivity. }
    destruct (IH h1) as [IH1 [IH2 IH3]]; [lia |].
    split; [lia |]. split.
    + intros b Hb. rewrite IH2 by exact Hb. apply Hoth1, Hb.
    + intros f. rewrite IH3. rewrite (Hoth1 a) by congruence.
      destruct (in_dec field_eq_dec f (g :: fs)) as [Hin | Hnin].
      * destruct (in_dec field_eq_dec f fs) as [Hin' | Hnin'].
        -- assert (f <> g) by (intros ->; contradiction).
           unfold field_step. rewrite !He1.
           destruct (field_eq_dec f g); [contradiction |].
           rewrite (field_truthy_get f (load h1 e) (load h e)); [reflexivity |].
           rewrite He1. destruct (field_eq_dec f g); [contradiction | reflexivity].
        -- destruct Hin as [-> | Hin]; [| contradiction].
           rewrite He1. destruct (field_eq_dec f f); [reflexivity | contradiction].
      * destruct (in_dec field_eq_dec f fs) as [Hin' | _]; [exfalso; apply Hnin; right; exact Hin' |].
        rewrite He1. destruct (field_eq_dec f g) as [-> |]; [exfalso; apply Hnin; left; reflexivity |].
        reflexivity.
Qed.

Lemma merged_fields_NoDup : NoDup merged_fields.
Proof. repeat constructor; simpl; intuition discriminate. Qed.

Lemma merge_into_spec (h : Heap) (e a : addr) :
  e <> a -> e < List.length h ->
  List.length (merge_into h e a) = List.length h /\
  (forall b, b <> e -> load (merge_into h e a) b = load h b) /\
  (forall f, get_field f (load (merge_into h e a) e) = field_step f (load h e) (load h a)).
Proof.
  intros Hea He.
  destruct (fields_fold_spec e a merged_fields h Hea He merged_fields_NoDup) as [H1 [H2 H3]].
  unfold merge_into. fold (fields_fold e a merged_fields h).
  set (h1 := fields_fold e a merged_fields h) in *.
  assert (Hf : forall f, get_field f (load h1 e) = field_step f (load h e) (load h a)).
  { intros f. rewrite H3. destruct (in_dec field_eq_dec f merged_fields) as [| n];
      [reflexivity | exfalso; apply n; destruct f; simpl; tauto]. }
  destruct (negb _).
  - split; [rewrite length_store; exact H1 |]. split.
    + intros b Hb. rewrite load_store_other by exact Hb. apply H2, Hb.
    + intros f. rewrite load_store_same by lia. rewrite get_set_source. apply Hf.
  - split; [exact H1 |]. split; [exact H2 | exact Hf].
Qed.

Lemma load_store (h : Heap) (a b : addr) (p : PaperRecord) :
  load (store h a p) b = load h b \/ load (store h a p) b = p.
Proof.
  unfold load. revert a b. induction h as [| q h IH]; intros [| a] [| b]; simpl; auto.
Qed.

Lemma fields_fold_ids (e a : addr) (fs : list Field) (h : Heap) :
  openalex_id (load (fields_fold e a fs h) e) = openalex_id (load h e) /\
  s2_id (load (fields_fold e a fs h) e) = s2_id (load h e).
Proof.
  revert h. induction fs as [| g fs IH]; intros h; [split; reflexivity |].
  change (fields_fold e a (g :: fs) h) with
    (fields_fold e a fs (if negb (field_truthy g (load h e)) && field_truthy g (load h a)
                         then store h e (copy_field g (load h a) (load h e)) else h)).
  destruct (IH (if negb (field_truthy g (load h e)) && field_truthy g (load h a)
                then store h e (copy_field g (load h a) (load h e)) else h)) as [I1 I2].
  rewrite I1, I2. destruct (_ && _); [| split; reflexivity].
  destruct (load_store h e e (copy_field g (load h a) (load h e))) as [-> | ->];
    [split; reflexivity | destruct g; split; reflexivity].
Qed.

Lemma merge_into_ids (h : Heap) (e a : addr) :
  openalex_id (load (merge_into h e a) e) = openalex_id (load h e) /\
  s2_id (load (merge_into h e a) e) = s2_id (load h e).
Proof.
  unfold merge_into. fold (fields_fold e a merged_fields h).
  destruct (fields_fold_ids e a merged_fields h) as [I1 I2].
  destruct (negb _); [| split; assumption].
  match goal with |- context [store ?h0 e ?p] =>
    destruct (load_store h0 e e p) as [-> | ->]; [split; assumption |] end.
  split; assumption.
Qed.

(** The addresses of the non-[None] entries of a list. *)
Fixpoint somes (l : list (option addr)) : list addr :=
  match l with
  | [] => []
  | None :: l' => somes l'
  | Some a :: l' => a :: somes l'
  end.

Lemma somes_app (l1 l2 : list (option addr)) : somes (l1 ++ l2) = somes l1 ++ somes l2.
Proof. induction l1 as [| [a |] l1 IH]; simpl; congruence. Qed.

(** The key of the object at [a] in the heap before the call. *)
Definition okey (h : Heap) (a : addr) : pystr := get_paper_key (load h a) a.

(** The duplicates of [a] in traversal order: the objects of [l] with its key. *)
Definition group (h : Heap) (l : list (option addr)) (a : addr) : list addr :=
  filter (fun b => str_eqb (okey h b) (okey h a)) (somes l).

Definition val_truthy (v : FieldVal) : bool :=
  match v with
  | VStr s => truthy_str s
  | VList l => match l with [] => false | _ => true end
  | VYear y => truthy_year y
  end.

Lemma field_truthy_val (f : Field) (p : PaperRecord) :
  field_truthy f p = val_truthy (get_field f p).
Proof. destruct f; reflexivity. Qed.

(** The first truthy value of field [f] among [rs]; [d]'s value if none. *)
Definition first_value (f : Field) (rs : list PaperRecord) (d : PaperRecord) : FieldVal :=
  match find (field_truthy f) rs with
  | Some r => get_field f r
  | None => get_field f d
  end.

Lemma find_app {A} (p : A -> bool) (l1 l2 : list A) :
  find p (l1 ++ l2) = match find p l1 with Some x => Some x | None => find p l2 end.
Proof.
  induction l1 as [| y l1 IH]; simpl; [reflexivity |]. destruct (p y); [reflexivity | exact IH].
Qed.

Lemma assoc_app (k : pystr) (d1 d2 : list (pystr * addr)) :
  assoc k (d1 ++ d2) = match assoc k d1 with Some v => Some v | None => assoc k d2 end.
Proof.
  induction d1 as [| [k' v] d1 IH]; simpl; [reflexivity |].
  destruct (str_eqb k' k); [reflexivity | exact IH].
Qed.

Lemma hd_error_filter_some {A} (p : A -> bool) (l : list A) (x : A) :
  hd_error (filter p l) = Some x -> In x l /\ p x = true.
Proof.
  induction l as [| y l IH]; simpl; [discriminate |].
  destruct (p y) eqn:E; simpl.
  - intros H. inversion H; subst. auto.
  - intros H. destruct (IH H). auto.
Qed.

Lemma hd_error_nil {A} (l : list A) : hd_error l = None -> l = [].
Proof. destruct l; simpl; congruence. Qed.

Lemma find_none_map (f : Field) (xs : list addr) (h : Heap) (e : addr) :
  find (field_truthy f) (map (load h) xs) = None -> In e xs -> field_truthy f (load h e) = false.
Proof.
  intros Hf He. apply (find_none _ _ Hf). apply in_map, He.
Qed.

End Merge.

Module MergeDup.
Import Fetch Common Merge.

(** Stable deduplication by key: the objects of [l] whose key has not been
    seen before, in the order of [l]. *)
Definition firsts (h : Heap) (l : list addr) : list addr :=
  fold_left (fun acc a =>
               if existsb (fun b => str_eqb (okey h b) (okey h a)) acc then acc
               else acc ++ [a]) l [].

Definition combined_source : pystr := lit "openalex+semantic_scholar".

(** The [source] the loop leaves on the first record [e] of a key group. *)
Definition group_source (h : Heap) (l : list (option addr)) (e : addr) : pystr :=
  if forallb (fun b => str_eqb (source (load h b)) (source (load h e))) (group h l e)
  then source (load h e) else combined_source.

Lemma fields_fold_cons (e a : addr) (g : Field) (fs : list Field) (h : Heap) :
  fields_fold e a (g :: fs) h =
  fields_fold e a fs (if negb (field_truthy g (load h e)) && field_truthy g (load h a)
                      then store h e (copy_field g (load h a) (load h e)) else h).
Proof. reflexivity. Qed.

Lemma fields_fold_frame (e a : addr) (fs : list Field) (h : Heap) (b : addr) :
  b <> e -> load (fields_fold e a fs h) b = load h b.
Proof.
  intros Hb. revert h. induction fs as [| g fs IH]; intros h; [reflexivity |].
  rewrite fields_fold_cons.
  rewrite IH. destruct (_ && _); [apply load_store_other, Hb | reflexivity].
Qed.

Lemma merge_into_frame (h : Heap) (e a b : addr) :
  b <> e -> load (merge_into h e a) b = load h b.
Proof.
  intros Hb. unfold merge_into. fold (fields_fold e a merged_fields h).
  destruct (negb _); [rewrite load_store_other by exact Hb |]; apply fields_fold_frame, Hb.
Qed.

Lemma assoc_In (k : pystr) (seen : list (pystr * addr)) (e : addr) :
  assoc k seen = Some e -> In e (map snd seen).
Proof.
  induction seen as [| [k' v] seen IH]; simpl; [discriminate |].
  destruct (str_eqb k' k); [intros H; inversion H; left; reflexivity | intros H; right; auto].
Qed.

Lemma merge_fold_frame (h : Heap) (l : list (option addr)) :
  forall st,
  (forall b, ~ In b (map snd (snd st)) -> load (fst st) b = load h b) ->
  forall b, ~ In b (map snd (snd (fold_left merge_step l st))) ->
  load (fst (fold_left merge_step l st)) b = load h b.
Proof.
  induction l as [| o l IH]; intros st P; [exact P |].
  cbn [fold_left]. apply IH. destruct st as [h0 seen0].
  destruct o as [a |]; [| exact P].
  cbn [merge_step]. destruct (assoc _ seen0) as [e |] eqn:Ha; cbn [fst snd] in P |- *.
  - intros b Hb. rewrite merge_into_frame; [apply P, Hb |].
    intros ->. apply Hb, (assoc_In _ _ _ Ha).
  - intros b Hb. apply P. intros H. apply Hb. rewrite map_app, in_app_iff. left. exact H.
Qed.

Lemma existsb_find {A} (p : A -> bool) (l : list A) :
  existsb p l = match find p l with Some _ => true | None => false end.
Proof. induction l as [| x l IH]; simpl; [reflexivity |]. destruct (p x); auto. Qed.

Lemma assoc_pairs (h : Heap) (k : pystr) (F : list addr) :
  assoc k (map (fun a => (okey h a, a)) F) = find (fun b => str_eqb (okey h b) k) F.
Proof. induction F as [| x F IH]; simpl; [reflexivity |]. destruct (str_eqb _ k); auto. Qed.

Lemma firsts_snoc (h : Heap) (l : list addr) (a : addr) :
  firsts h (l ++ [a]) =
  if existsb (fun b => str_eqb (okey h b) (okey h a)) (firsts h l) then firsts h l
  else firsts h l ++ [a].
Proof. unfold firsts. rewrite fold_left_app. reflexivity. Qed.

Lemma NoDup_snoc {A} (l : list A) (x : A) : NoDup l -> ~ In x l -> NoDup (l ++ [x]).
Proof.
  induction l as [| y l IH]; simpl; intros Hnd Hx.
  - repeat constructor. intros [].
  - inversion Hnd; subst. constructor.
    + rewrite in_app_iff. intros [H | [H | []]]; [contradiction | apply Hx; left; symmetry; exact H].
    + apply IH; [assumption | intros H; apply Hx; right; exact H].
Qed.

Lemma firsts_keys_NoDup (h : Heap) (l : list addr) : NoDup (map (okey h) (firsts h l)).
Proof.
  induction l as [| a l IH] using rev_ind; [constructor |].
  rewrite firsts_snoc. destruct (existsb _ _) eqn:E; [exact IH |].
  rewrite map_app. apply NoDup_snoc; [exact IH |].
  intros Hin. apply in_map_iff in Hin. destruct Hin as [b [Hb Hin]].
  assert (existsb (fun b => str_eqb (okey h b) (okey h a)) (firsts h l) = true)
    by (apply existsb_exists; exists b; split; [exact Hin | rewrite Hb; apply str_eqb_refl]).
  congruence.
Qed.

Lemma firsts_In (h : Heap) (l : list addr) (e : addr) : In e (firsts h l) -> In e l.
Proof.
  induction l as [| a l IH] using rev_ind; [intros [] |].
  rewrite firsts_snoc, in_app_iff. destruct (existsb _ _).
  - intros H. left. apply IH, H.
  - rewrite in_app_iff. intros [H | H]; [left; apply IH, H | right; exact H].
Qed.

Lemma firsts_cover (h : Heap) (l : list addr) (a : addr) :
  In a l -> exists e, In e (firsts h l) /\ okey h e = okey h a.
Proof.
  induction l as [| x l IH] using rev_ind; [intros [] |].
  rewrite in_app_iff. rewrite firsts_snoc. intros Ha.
  assert (Hsub : forall e, In e (firsts h l) ->
                 In e (if existsb (fun b => str_eqb (okey h b) (okey h x)) (firsts h l)
                       then firsts h l else firsts h l ++ [x])).
  { intros e He. destruct (existsb _ _); [exact He | apply in_or_app; left; exact He]. }
  destruct Ha as [Ha | [-> | []]].
  - destruct (IH Ha) as [e [He Hk]]. exists e. split; [apply Hsub, He | exact Hk].
  - destruct (existsb _ _) eqn:E.
    + apply existsb_exists in E. destruct E as [e [He Hk]].
      exists e. split; [exact He | apply str_eqb_eq, Hk].
    + exists a. split; [apply in_or_app; right; left; reflexivity | reflexivity].
Qed.

Lemma valid_prefix (h : Heap) (l : list (option addr)) (o : option addr) :
  Forall (fun a => a < List.length h) (somes (l ++ [o])) ->
  Forall (fun a => a < List.length h) (somes l).
Proof. rewrite somes_app, Forall_app. intros [H _]. exact H. Qed.

(** The heads of the four kinds of key of [get_paper_key]. *)
Lemma key_kind (p q : PaperRecord) (a b : addr) :
  get_paper_key p a = get_paper_key q b ->
  field_truthy FDoi p = field_truthy FDoi q /\
  (field_truthy FDoi p = false -> field_truthy FArxivId p = field_truthy FArxivId q) /\
  (field_truthy FDoi p = false -> field_truthy FArxivId p = false ->
   field_truthy FTitle p = field_truthy FTitle q).
Proof.
  unfold get_paper_key. cbn [field_truthy].
  destruct (truthy_str (doi p)), (truthy_str (doi q)), (truthy_str (arxiv_id p)),
    (truthy_str (arxiv_id q)), (truthy_str (title p)), (truthy_str (title q));
    cbn; intros E; try discriminate E; intuition discriminate.
Qed.

Lemma first_value_own (f : Field) (d : PaperRecord) (rs : list PaperRecord) :
  (forall r, In r rs -> field_truthy f r = true -> field_truthy f d = true) ->
  first_value f (d :: rs) d = get_field f d.
Proof.
  intros H. unfold first_value. cbn [find].
  destruct (field_truthy f d) eqn:Ed; [reflexivity |].
  destruct (find (field_truthy f) rs) as [r |] eqn:Ef; [| reflexivity].
  apply find_some in Ef. destruct Ef as [Hr Ht]. specialize (H r Hr Ht). congruence.
Qed.

Lemma get_paper_key_fields (p q : PaperRecord) (a : addr) :
  get_field FDoi q = get_field FDoi p ->
  (field_truthy FDoi p = false -> get_field FArxivId q = get_field FArxivId p) ->
  (field_truthy FDoi p = false -> field_truthy FArxivId p = false ->
   get_field FTitle q = get_field FTitle p) ->
  get_paper_key q a = get_paper_key p a.
Proof.
  unfold get_paper_key. cbn [get_field field_truthy]. intros H1 H2 H3.
  inversion H1 as [E1]. rewrite E1.
  destruct (truthy_str (doi p)) eqn:D; [reflexivity |].
  specialize (H2 eq_refl). inversion H2 as [E2]. rewrite E2.
  destruct (truthy_str (arxiv_id p)) eqn:A; [reflexivity |].
  specialize (H3 eq_refl eq_refl). inversion H3 as [E3]. rewrite E3. reflexivity.
Qed.

(** The first record of a key group keeps its key through the merge. *)
Lemma merged_key (h : Heap) (l : list (option addr)) (hl : Heap) (e : addr) :
  hd_error (group h l e) = Some e ->
  (forall f, get_field f (load hl e) = first_value f (map (load h) (group h l e)) (load h e)) ->
  get_paper_key (load hl e) e = okey h e.
Proof.
  intros Hhd Hf.
  destruct (group h l e) as [| e0 rest] eqn:Eg; [discriminate |].
  simpl in Hhd. inversion Hhd; subst e0.
  assert (Hgrp : forall r, In r rest -> okey h r = okey h e).
  { intros r Hr. assert (Hin : In r (group h l e)) by (rewrite Eg; right; exact Hr).
    unfold group in Hin. apply filter_In in Hin. apply str_eqb_eq, Hin. }
  cbn [map] in Hf. unfold okey.
  apply get_paper_key_fields.
  - rewrite Hf. apply first_value_own. intros r Hr Ht.
    apply in_map_iff in Hr. destruct Hr as [b [<- Hb]].
    destruct (key_kind _ _ _ _ (Hgrp b Hb)) as [K _]. congruence.
  - intros D. rewrite Hf. apply first_value_own. intros r Hr Ht.
    apply in_map_iff in Hr. destruct Hr as [b [<- Hb]].
    destruct (key_kind _ _ _ _ (Hgrp b Hb)) as [K1 [K2 _]].
    rewrite <- K1 in D. rewrite <- (K2 D). exact Ht.
  - intros D A. rewrite Hf. apply first_value_own. intros r Hr Ht.
    apply in_map_iff in Hr. destruct Hr as [b [<- Hb]].
    destruct (key_kind _ _ _ _ (Hgrp b Hb)) as [K1 [K2 K3]].
    rewrite <- K1 in D. rewrite <- (K2 D) in A. rewrite <- (K3 D A). exact Ht.
Qed.

Lemma source_fields_fold (e a : addr) (fs : list Field) (h : Heap) (b : addr) :
  source (load (fields_fold e a fs h) b) = source (load h b).
Proof.
  revert h. induction fs as [| g fs IH]; intros h; [reflexivity |].
  rewrite fields_fold_cons. rewrite IH.
  destruct (_ && _); [| reflexivity].
  destruct (Nat.eq_dec b e) as [-> | Hb].
  - destruct (load_store h e e (copy_field g (load h a) (load h e))) as [-> | ->];
      [reflexivity | destruct g; reflexivity].
  - rewrite load_store_other by exact Hb. reflexivity.
Qed.

Lemma merge_into_source (h : Heap) (e a : addr) :
  e < List.length h ->
  source (load (merge_into h e a) e) =
  if str_eqb (source (load h e)) (source (load h a)) then source (load h e)
  else combined_source.
Proof.
  intros He. unfold merge_into. fold (fields_fold e a merged_fields h).
  rewrite !source_fields_fold.
  destruct (str_eqb (source (load h e)) (source (load h a))); cbn [negb];
    [rewrite source_fields_fold; reflexivity |].
  rewrite load_store_same.
  - reflexivity.
  - assert (Hl : forall fs h0, List.length (fields_fold e a fs h0) = List.length h0).
    { induction fs as [| g fs IH]; intros h0; [reflexivity |].
      rewrite fields_fold_cons. rewrite IH.
      destruct (_ && _); [apply length_store | reflexivity]. }
    rewrite Hl. exact He.
Qed.

Lemma fields_fold_self (e : addr) (fs : list Field) (h : Heap) : fields_fold e e fs h = h.
Proof.
  revert h. induction fs as [| g fs IH]; intros h; [reflexivity |].
  rewrite fields_fold_cons. destruct (field_truthy g (load h e)); apply IH.
Qed.

(** A record merged with itself is left as it is. *)
Lemma merge_into_self (h : Heap) (a : addr) : merge_into h a a = h.
Proof.
  unfold merge_into. fold (fields_fold a a merged_fields h).
  rewrite fields_fold_self, str_eqb_refl. reflexivity.
Qed.

Lemma length_merge_into (h : Heap) (e a : addr) :
  List.length (merge_into h e a) = List.length h.
Proof.
  assert (Hl : forall fs h0, List.length (fields_fold e a fs h0) = List.length h0).
  { induction fs as [| g fs IH]; intros h0; [reflexivity |].
    rewrite fields_fold_cons. rewrite IH.
    destruct (_ && _); [apply length_store | reflexivity]. }
  unfold merge_into. fold (fields_fold e a merged_fields h).
  destruct (negb _); [rewrite length_store |]; apply Hl.
Qed.

(** What holds after the loop has gone through the prefix [l], whose
    entries may name the same object more than once. *)
Definition MInv (h : Heap) (l : list (option addr)) (st : Heap * list (pystr * addr)) : Prop :=
  let (hl, seen) := st in
  List.length hl = List.length h /\
  (forall b, ~ In b (map snd seen) -> load hl b = load h b) /\
  (forall k, assoc k seen = hd_error (filter (fun b => str_eqb (okey h b) k) (somes l))) /\
  (forall e, In e (map snd seen) ->
     assoc (okey h e) seen = Some e /\
     (forall f, get_field f (load hl e) = first_value f (map (load h) (group h l e)) (load h e)) /\
     openalex_id (load hl e) = openalex_id (load h e) /\
     s2_id (load hl e) = s2_id (load h e) /\
     source (load hl e) = group_source h l e).

Lemma minv_first (h : Heap) (l : list (option addr)) (hl : Heap) (seen : list (pystr * addr))
    (e : addr) :
  MInv h l (hl, seen) -> In e (map snd seen) -> hd_error (group h l e) = Some e.
Proof.
  intros [_ [_ [Has Hseen]]] He. destruct (Hseen e He) as [S1 _].
  unfold group. rewrite <- Has. exact S1.
Qed.

(** The key the loop computes for an object is its key before the call. *)
Lemma minv_key (h : Heap) (l : list (option addr)) (hl : Heap) (seen : list (pystr * addr))
    (a : addr) :
  MInv h l (hl, seen) -> get_paper_key (load hl a) a = okey h a.
Proof.
  intros Hinv. destruct (in_dec Nat.eq_dec a (map snd seen)) as [Ha | Ha].
  - apply (merged_key h l hl a (minv_first h l hl seen a Hinv Ha)).
    destruct Hinv as [_ [_ [_ Hseen]]]. apply (Hseen a Ha).
  - destruct Hinv as [_ [Hfr _]]. unfold okey. rewrite (Hfr a Ha). reflexivity.
Qed.

Lemma group_snoc (h : Heap) (l : list (option addr)) (a x : addr) :
  group h (l ++ [Some a]) x =
  group h l x ++ (if str_eqb (okey h a) (okey h x) then [a] else []).
Proof. unfold group. rewrite somes_app, filter_app. reflexivity. Qed.

Lemma group_source_snoc (h : Heap) (l : list (option addr)) (a x : addr) :
  group_source h (l ++ [Some a]) x =
  if forallb (fun b => str_eqb (source (load h b)) (source (load h x))) (group h l x) &&
     (negb (str_eqb (okey h a) (okey h x)) || str_eqb (source (load h a)) (source (load h x)))
  then source (load h x) else combined_source.
Proof.
  unfold group_source. rewrite group_snoc, forallb_app.
  destruct (str_eqb (okey h a) (okey h x)); cbn [forallb negb orb];
    [rewrite andb_true_r | rewrite andb_true_r]; reflexivity.
Qed.

Lemma group_source_same (h : Heap) (l : list (option addr)) (a x : addr) :
  str_eqb (okey h a) (okey h x) = false -> group_source h (l ++ [Some a]) x = group_source h l x.
Proof.
  intros E. rewrite group_source_snoc, E. cbn [negb orb]. rewrite andb_true_r. reflexivity.
Qed.

Lemma group_In (h : Heap) (l : list (option addr)) (e b : addr) :
  In b (group h l e) -> In b (somes l) /\ okey h b = okey h e.
Proof.
  unfold group. rewrite filter_In. intros [H1 H2]. split; [exact H1 | apply str_eqb_eq, H2].
Qed.

Lemma minv_assoc_snoc (h : Heap) (l : list (option addr)) (seen : list (pystr * addr))
    (a e : addr) :
  (forall k, assoc k seen = hd_error (filter (fun b => str_eqb (okey h b) k) (somes l))) ->
  assoc (okey h a) seen = Some e ->
  forall k, assoc k seen = hd_error (filter (fun b => str_eqb (okey h b) k) (somes (l ++ [Some a]))).
Proof.
  intros Has Ha k. rewrite Has, somes_app, filter_app.
  pose proof Ha as Ha'. rewrite Has in Ha'. apply hd_error_filter_some in Ha'.
  destruct Ha' as [HeP Hke]. apply str_eqb_eq in Hke.
  destruct (filter _ (somes l)) as [| x xs] eqn:Ef; simpl; [| reflexivity].
  destruct (str_eqb (okey h a) k) eqn:Eak; [| reflexivity].
  apply str_eqb_eq in Eak. subst k.
  assert (Hin : In e (filter (fun b => str_eqb (okey h b) (okey h a)) (somes l)))
    by (apply filter_In; split; [exact HeP | apply str_eqb_eq; exact Hke]).
  rewrite Ef in Hin. destruct Hin.
Qed.

Lemma minv_step (h : Heap) (l : list (option addr)) (o : option addr)
    (st : Heap * list (pystr * addr)) :
  Forall (fun a => a < List.length h) (somes (l ++ [o])) ->
  MInv h l st -> MInv h (l ++ [o]) (merge_step st o).
Proof.
  destruct st as [hl seen]. intros Hval Hinv.
  destruct o as [a |].
  2:{ unfold merge_step, MInv, group_source, group. rewrite !somes_app. simpl.
      rewrite !app_nil_r. exact Hinv. }
  pose proof (minv_key h l hl seen a Hinv) as Hka.
  destruct Hinv as [Hlen [Hfr [Has Hseen]]].
  rewrite somes_app, Forall_app in Hval. destruct Hval as [Hval Hva].
  unfold merge_step. rewrite Hka.
  destruct (assoc (okey h a) seen) as [e |] eqn:Ha.
  - (* a key seen before: [paper] is merged into [e] *)
    pose proof Ha as Ha'. rewrite Has in Ha'. apply hd_error_filter_some in Ha'.
    destruct Ha' as [HeP Hke]. apply str_eqb_eq in Hke.
    assert (He : e < List.length hl).
    { rewrite Hlen. rewrite Forall_forall in Hval. apply Hval, HeP. }
    assert (Hoth : forall e', In e' (map snd seen) -> e' <> e ->
                   str_eqb (okey h a) (okey h e') = false).
    { intros e' He' Hne. destruct (str_eqb (okey h a) (okey h e')) eqn:E; [| reflexivity].
      apply str_eqb_eq in E. destruct (Hseen e' He') as [S1 _].
      rewrite <- E, Ha in S1. inversion S1. congruence. }
    split; [rewrite length_merge_into; exact Hlen |].
    split; [| split; [exact (minv_assoc_snoc h l seen a e Has Ha) |]].
    + intros b Hb. assert (b <> e) by (intros ->; apply Hb, (assoc_In _ _ _ Ha)).
      rewrite merge_into_frame by assumption. apply Hfr, Hb.
    + intros e' He'. destruct (Hseen e' He') as [S1 [S2 [S3 [S4 S5]]]].
      split; [exact S1 |].
      destruct (Nat.eq_dec e' e) as [-> | Hne].
      2:{ rewrite !merge_into_frame by exact Hne. rewrite group_snoc, (Hoth e' He' Hne), app_nil_r.
          rewrite group_source_same by exact (Hoth e' He' Hne).
          split; [exact S2 | split; [exact S3 | split; assumption]]. }
      rewrite group_snoc, Hke, str_eqb_refl, group_source_snoc, Hke, str_eqb_refl.
      cbn [negb orb].
      assert (Hin : In e (group h l e))
        by (apply filter_In; split; [exact HeP | apply str_eqb_refl]).
      destruct (Nat.eq_dec e a) as [<- | Hea].
      * (* the object itself, listed again *)
        rewrite merge_into_self, str_eqb_refl, andb_true_r.
        split; [| split; [exact S3 | split; [exact S4 | exact S5]]].
        intros f. rewrite S2, map_app. unfold first_value. rewrite find_app.
        destruct (find (field_truthy f) (map (load h) (group h l e))) as [r |] eqn:Efind;
          [reflexivity |].
        simpl. rewrite (find_none_map f _ h e Efind Hin). reflexivity.
      * assert (Hna : ~ In a (map snd seen)).
        { intros Hin'. destruct (Hseen a Hin') as [S1' _]. rewrite Ha in S1'.
          inversion S1'. congruence. }
        rewrite <- (Hfr a Hna).
        destruct (merge_into_spec hl e a Hea He) as [_ [_ M3]].
        destruct (merge_into_ids hl e a) as [M4 M5].
        split; [| split; [rewrite M4; exact S3 | split; [rewrite M5; exact S4 |]]].
        -- intros f. rewrite M3, map_app, (Hfr a Hna). simpl map.
           unfold first_value. rewrite find_app. specialize (S2 f). unfold first_value in S2.
           destruct (find (field_truthy f) (map (load h) (group h l e))) as [r |] eqn:Efind.
           ++ unfold field_step. rewrite field_truthy_val, S2, <- field_truthy_val.
              apply find_some in Efind. rewrite (proj2 Efind). reflexivity.
           ++ unfold field_step. rewrite field_truthy_val, S2, <- field_truthy_val.
              rewrite (find_none_map f _ h e Efind Hin). simpl.
              destruct (field_truthy f (load h a)); reflexivity.
        -- rewrite merge_into_source by exact He. rewrite S5, (Hfr a Hna). unfold group_source.
           destruct (forallb _ (group h l e)); cbn [andb].
           ++ rewrite str_eqb_sym.
              destruct (str_eqb (source (load h e)) (source (load h a))); reflexivity.
           ++ destruct (str_eqb combined_source (source (load h a))); reflexivity.
  - (* a new key *)
    assert (Hna : ~ In a (map snd seen)).
    { intros Hin'. destruct (Hseen a Hin') as [S1' _]. rewrite Ha in S1'. discriminate. }
    assert (Hnone : group h l a = [])
      by (unfold group; apply hd_error_nil; rewrite <- Has; exact Ha).
    split; [exact Hlen |]. split; [| split].
    + intros b Hb. apply Hfr. intros Hb'. apply Hb. rewrite map_app, in_app_iff. left. exact Hb'.
    + intros k. rewrite assoc_app, Has, somes_app, filter_app.
      destruct (filter (fun b => str_eqb (okey h b) k) (somes l)); simpl; [| reflexivity].
      rewrite (str_eqb_sym (okey h a) k). destruct (str_eqb k (okey h a)); reflexivity.
    + intros e' He'. rewrite map_app, in_app_iff in He'. simpl in He'.
      destruct He' as [He' | [<- | []]].
      * destruct (Hseen e' He') as [S1 [S2 [S3 [S4 S5]]]].
        assert (Hk : str_eqb (okey h a) (okey h e') = false).
        { destruct (str_eqb (okey h a) (okey h e')) eqn:E; [| reflexivity].
          apply str_eqb_eq in E. rewrite E, S1 in Ha. discriminate. }
        split; [rewrite assoc_app, S1; reflexivity |].
        rewrite group_snoc, Hk, app_nil_r, group_source_same by exact Hk.
        split; [exact S2 | split; [exact S3 | split; assumption]].
      * split; [rewrite assoc_app, Ha; simpl; rewrite str_eqb_refl; reflexivity |].
        rewrite (Hfr a Hna), group_snoc, group_source_snoc, str_eqb_refl, Hnone.
        rewrite str_eqb_refl. cbn [forallb andb negb orb app map].
        split; [| split; [reflexivity | split; reflexivity]].
        intros f. unfold first_value. simpl. destruct (field_truthy f (load h a)); reflexivity.
Qed.

Lemma minv_fold (h : Heap) (l : list (option addr)) :
  Forall (fun a => a < List.length h) (somes l) ->
  MInv h l (fold_left merge_step l (h, [])).
Proof.
  induction l as [| o l IH] using rev_ind; intros Hval.
  - split; [reflexivity |]. split; [reflexivity |]. split; [reflexivity |].
    intros e [].
  - rewrite fold_left_app. cbn [fold_left]. apply minv_step; [exact Hval |].
    apply IH, (valid_prefix h l o Hval).
Qed.

End MergeDup.

Module MergeProps.
Import Fetch Common Merge MergeDup.

(** Two records of the same DOI: the first, from OpenAlex, without venue;
    the second, from Semantic Scholar, with a venue and an id but no year. *)
Definition oa_rec : PaperRecord :=
  mkPaper (lit "Paper X") (lit "10.1/x") [] (lit "W1") [] [lit "A. Author"] (Some 2020%Z)
          [] (lit "openalex").
Definition s2_rec : PaperRecord :=
  mkPaper (lit "Paper X") (lit "10.1/X") [] [] (lit "abc") [] None
          (lit "ICML") (lit "semantic_scholar").
Definition dup_heap : Heap := [oa_rec; s2_rec].

(** C6 (amended). Every record returned by [merge_paper_lists] is the
    first of its key group in the traversal order of [list1 + list2] (an
    object listed more than once is merged with itself, which changes
    nothing).  Each of the fields doi, arxiv_id, title, authors, year and
    venue holds the first truthy value of that field in the group, or the
    record's own value if there is none; in particular a field the record
    already had populated keeps its value.  The OpenAlex and Semantic
    Scholar ids keep the record's own values, even when empty.  The
    [source] is the record's own one when every record of the group has
    that source, and [openalex+semantic_scholar] otherwise.  Records carry
    their source as a string, as both metadata extractors set it; every
    listed address is an object of the heap. *)
Theorem merge_first_wins (h : Heap) (list1 list2 : list (option addr)) :
  Forall (fun a => a < List.length h) (somes (list1 ++ list2)) ->
  forall e, In e (snd (merge_paper_lists h list1 list2)) ->
  let h' := fst (merge_paper_lists h list1 list2) in
  hd_error (group h (list1 ++ list2) e) = Some e /\
  (forall f, get_field f (load h' e) =
             first_value f (map (load h) (group h (list1 ++ list2) e)) (load h e)) /\
  (forall f, field_truthy f (load h e) = true -> get_field f (load h' e) = get_field f (load h e)) /\
  openalex_id (load h' e) = openalex_id (load h e) /\
  s2_id (load h' e) = s2_id (load h e) /\
  source (load h' e) = group_source h (list1 ++ list2) e.
Proof.
  intros Hval e.
  pose proof (minv_fold h (list1 ++ list2) Hval) as Hinv.
  unfold merge_paper_lists.
  destruct (fold_left merge_step (list1 ++ list2) (h, [])) as [h' seen] eqn:Ef.
  cbn [fst snd]. intros He.
  pose proof (minv_first h _ h' seen e Hinv He) as Hhd.
  destruct Hinv as [_ [_ [_ Hseen]]].
  destruct (Hseen e He) as [_ [S2 [S3 [S4 S5]]]].
  split; [exact Hhd |]. split; [exact S2 |].
  split; [| split; [exact S3 | split; assumption]].
  intros f Ht. rewrite S2.
  destruct (group h (list1 ++ list2) e) as [| e0 rest]; [discriminate |].
  simpl in Hhd. inversion Hhd; subst e0. unfold first_value. cbn [map find]. rewrite Ht.
  reflexivity.
Qed.

Lemma merge_first_wins_witness :
  get_field FVenue (load (fst (merge_paper_lists dup_heap [Some 0] [Some 1; Some 0])) 0) =
    VStr (lit "ICML") /\
  get_field FYear (load (fst (merge_paper_lists dup_heap [Some 0] [Some 1; Some 0])) 0) =
    VYear (Some 2020%Z) /\
  source (load (fst (merge_paper_lists dup_heap [Some 0] [Some 1; Some 0])) 0) =
    lit "openalex+semantic_scholar".
Proof.
  assert (Hval : Forall (fun a => a < List.length dup_heap) (somes ([Some 0] ++ [Some 1; Some 0])))
    by (simpl; repeat constructor).
  assert (Hin : In 0 (snd (merge_paper_lists dup_heap [Some 0] [Some 1; Some 0])))
    by (vm_compute; left; reflexivity).
  destruct (merge_first_wins dup_heap [Some 0] [Some 1; Some 0] Hval 0 Hin)
    as [_ [Hf [_ [_ [_ Hs]]]]].
  split; [rewrite Hf; vm_compute; reflexivity |].
  split; [rewrite Hf; vm_compute; reflexivity |].
  rewrite Hs. vm_compute. reflexivity.
Defined.

(** C6 counterexample. The Semantic Scholar id of the second record is the
    first non-empty [s2_id] of the group, yet the merged record keeps the
    empty one of the first record. *)
Example s2_id_not_merged :
  snd (merge_paper_lists dup_heap [Some 0] [Some 1]) = [0] /\
  s2_id (load dup_heap 1) = lit "abc" /\
  s2_id (load (fst (merge_paper_lists dup_heap [Some 0] [Some 1])) 0) = [].
Proof. vm_compute. repeat split. Qed.

(** C7. [merge_paper_lists] mutates its inputs: the first record object of a
    duplicate group is the one stored in [seen] and updated in place, so
    after the call the input record of [list1] has the venue of the second
    record and the combined source, where before it had neither. *)
Example merge_mutates_input :
  load dup_heap 0 <> load (fst (merge_paper_lists dup_heap [Some 0] [Some 1])) 0 /\
  venue (load dup_heap 0) = [] /\
  venue (load (fst (merge_paper_lists dup_heap [Some 0] [Some 1])) 0) = lit "ICML" /\
  source (load dup_heap 0) = lit "openalex" /\
  source (load (fst (merge_paper_lists dup_heap [Some 0] [Some 1])) 0) =
    lit "openalex+semantic_scholar".
Proof. vm_compute. split; [discriminate | repeat split]. Qed.

End MergeProps.

(** ** Further properties of the code *)

Module Results.
Import Analyze Common.

(** The records listed under [rel] by the seeds with metadata, in the
    order of the indexing loop. *)
Definition listed (rel : Entry -> list PaperRecord) (papers : list Entry) : list PaperRecord :=
  flat_map (fun p => match metadata p with Some _ => rel p | None => [] end) papers.

Definition has_key (key : pystr) (r : PaperRecord) : bool :=
  match get_paper_key r with Some k => str_eqb k key | None => false end.

(** The first listed record whose key is [key]. *)
Definition first_listed (rel : Entry -> list PaperRecord) (papers : list Entry) (key : pystr)
  : option PaperRecord := find (has_key key) (listed rel papers).

(** [a] may come before [b] in a sorted result list: a larger count, or the
    same count and a title that is not greater. *)
Definition agg_le (a b : AggEntry) : Prop :=
  ae_count b <= ae_count a /\
  (ae_count a = ae_count b -> str_ltb (ae_title b) (ae_title a) = false).

(** What an entry of a result list is, read off the input document: the
    key is listed by some seed with metadata and is not a seed key; the
    stored fields are those of the first listing record; the seed list has
    one element per listing, in document order; the count is its length
    and reaches the threshold. *)
Definition entry_of (rel : Entry -> list PaperRecord) (papers : list Entry) (k : Z)
    (e : AggEntry) : Prop :=
  exists r,
    first_listed rel papers (ae_key e) = Some r /\
    ~ In (ae_key e) (seed_keys papers) /\
    let l := flat_map (Aggregation.entry_contribs rel (ae_key e)) papers in
    (k <= Z.of_nat (List.length l))%Z /\
    e = mkAgg (ae_key e) (doi r) (arxiv_id r) (title r) (authors r) (year r) (venue r)
              (List.length l) l false.

Lemma str_ltb_asym (a b : pystr) : str_ltb a b = true -> str_ltb b a = false.
Proof.
  revert b. induction a as [| x a IH]; intros [| y b]; simpl; try discriminate; [reflexivity |].
  rewrite !orb_true_iff, !andb_true_iff, Nat.ltb_lt, Nat.eqb_eq.
  intros [H | [H1 H2]].
  - apply orb_false_iff. split; [apply Nat.ltb_ge; lia |].
    apply andb_false_iff. left. apply Nat.eqb_neq. lia.
  - rewrite H1, Nat.ltb_irrefl, Nat.eqb_refl. simpl. apply IH, H2.
Qed.

Lemma agg_ltb_asym (x y : AggEntry) : agg_ltb x y = true -> agg_ltb y x = false.
Proof.
  unfold agg_ltb. rewrite orb_true_iff, andb_true_iff, Nat.ltb_lt, Nat.eqb_eq.
  intros [H | [H1 H2]].
  - apply orb_false_iff. split; [apply Nat.ltb_ge; lia |].
    apply andb_false_iff. left. apply Nat.eqb_neq. lia.
  - rewrite H1, Nat.ltb_irrefl, Nat.eqb_refl. simpl. apply str_ltb_asym, H2.
Qed.

Lemma agg_le_iff (a b : AggEntry) : agg_ltb b a = false <-> agg_le a b.
Proof.
  unfold agg_ltb, agg_le. rewrite orb_false_iff, andb_false_iff, Nat.ltb_ge, Nat.eqb_neq.
  split.
  - intros [H1 H2]. split; [exact H1 |]. intros E. destruct H2 as [H2 | H2]; [lia | exact H2].
  - intros [H1 H2]. split; [exact H1 |].
    destruct (Nat.eq_dec (ae_count a) (ae_count b)) as [E | E]; [right; apply H2, E | left; lia].
Qed.

Lemma insert_sorted_hd (z x : AggEntry) (l : list AggEntry) :
  HdRel agg_le z l -> agg_le z x -> HdRel agg_le z (insert_sorted x l).
Proof.
  intros Hl Hx. destruct l as [| y ys]; simpl; [constructor; exact Hx |].
  destruct (agg_ltb x y); constructor; [exact Hx |]. inversion Hl; assumption.
Qed.

Lemma insert_sorted_sorted (x : AggEntry) (l : list AggEntry) :
  Sorted agg_le l -> Sorted agg_le (insert_sorted x l).
Proof.
  induction l as [| y ys IH]; intros H; simpl; [repeat constructor |].
  destruct (agg_ltb x y) eqn:E.
  - constructor; [exact H |]. constructor. apply agg_le_iff, agg_ltb_asym, E.
  - inversion H as [| ? ? Hs Hhd]; subst. constructor; [apply IH, Hs |].
    apply insert_sorted_hd; [exact Hhd | apply agg_le_iff, E].
Qed.

Lemma sort_entries_sorted (l : list AggEntry) : Sorted agg_le (sort_entries l).
Proof.
  unfold sort_entries. assert (H : Sorted agg_le []) by constructor. revert H.
  generalize (@nil AggEntry). induction l as [| x l IH]; intros acc H; simpl; [exact H |].
  apply IH, insert_sorted_sorted, H.
Qed.

Lemma insert_sorted_perm (x : AggEntry) (l : list AggEntry) :
  Permutation (insert_sorted x l) (x :: l).
Proof.
  induction l as [| y ys IH]; simpl; [reflexivity |].
  destruct (agg_ltb x y); [reflexivity |].
  rewrite IH. apply perm_swap.
Qed.

Lemma sort_entries_perm (l : list AggEntry) : Permutation (sort_entries l) l.
Proof.
  unfold sort_entries.
  enough (H : forall acc, Permutation (fold_left (fun acc x => insert_sorted x acc) l acc) (l ++ acc))
    by (rewrite H, app_nil_r; reflexivity).
  induction l as [| x l IH]; intros acc; simpl; [reflexivity |].
  rewrite IH, insert_sorted_perm. symmetry. apply Permutation_middle.
Qed.

Lemma filter_index_keys (idx : Index) (seeds : list pystr) (k : Z) (key : pystr) :
  In key (map ae_key (filter_index idx seeds k)) -> In key (map fst idx).
Proof.
  rewrite !in_map_iff. intros [e [<- He]]. apply Aggregation.filter_index_In in He.
  destruct He as (key & m & l & Hin & _ & _ & ->). exists (key, (m, l)). auto.
Qed.

Lemma filter_index_NoDup (idx : Index) (seeds : list pystr) (k : Z) :
  NoDup (map fst idx) -> NoDup (map ae_key (filter_index idx seeds k)).
Proof.
  induction idx as [| [key [m l]] idx IH]; intros Hnd; simpl; [constructor |].
  inversion Hnd as [| ? ? Hk Hnd']; subst.
  fold (filter_index idx seeds k).
  destruct (set_mem key seeds); [apply IH, Hnd' |].
  destruct (k <=? Z.of_nat (List.length l))%Z; [| apply IH, Hnd'].
  simpl. constructor; [| apply IH, Hnd'].
  intros H. apply Hk. exact (filter_index_keys idx seeds k key H).
Qed.

(** The first record stored under [key] by [index_add]. *)
Lemma index_add_meta (key k : pystr) (r : PaperRecord) (sr : SeedRef) (idx : Index) :
  option_map fst (Aggregation.lookup_entry key (index_add k r sr idx)) =
  match option_map fst (Aggregation.lookup_entry key idx) with
  | Some m => Some m
  | None => if str_eqb k key then Some r else None
  end.
Proof.
  induction idx as [| [k' [m l]] rest IH]; simpl.
  - destruct (str_eqb k key); reflexivity.
  - destruct (str_eqb k' k) eqn:E1.
    + apply str_eqb_eq in E1. subst k'. simpl. destruct (str_eqb k key); [reflexivity |].
      destruct (option_map fst (Aggregation.lookup_entry key rest)); reflexivity.
    + simpl. destruct (str_eqb k' key) eqn:E2; [reflexivity | exact IH].
Qed.

Lemma build_index_meta (rel : Entry -> list PaperRecord) (papers : list Entry) (key : pystr) :
  option_map fst (Aggregation.lookup_entry key (build_index rel papers)) =
  first_listed rel papers key.
Proof.
  unfold build_index, first_listed, listed.
  enough (H : forall acc, option_map fst (Aggregation.lookup_entry key (fold_left (fun idx paper =>
       match metadata paper with
       | None => idx
       | Some _ =>
           fold_left (fun idx r => match get_paper_key r with
                                   | Some k => index_add k r (mkSeedRef (input_doi paper)
                                                 (get_seed_paper_label paper)) idx
                                   | None => idx
                                   end) (rel paper) idx
       end) papers acc)) =
     match option_map fst (Aggregation.lookup_entry key acc) with
     | Some m => Some m
     | None => find (has_key key)
                 (flat_map (fun p => match metadata p with Some _ => rel p | None => [] end) papers)
     end) by apply H.
  induction papers as [| p ps IH]; intros acc; simpl.
  - destruct (option_map fst (Aggregation.lookup_entry key acc)); reflexivity.
  - rewrite IH, Merge.find_app.
    destruct (metadata p); [| destruct (option_map fst (Aggregation.lookup_entry key acc)); reflexivity].
    generalize acc. clear. induction (rel p) as [| r rs IHr]; intros acc; simpl.
    + destruct (option_map fst (Aggregation.lookup_entry key acc)); reflexivity.
    + unfold has_key at 2. destruct (get_paper_key r) as [k |] eqn:Ek.
      * rewrite IHr, index_add_meta.
        destruct (option_map fst (Aggregation.lookup_entry key acc)); [reflexivity |].
        destruct (str_eqb k key); reflexivity.
      * rewrite IHr. reflexivity.
Qed.

Lemma build_index_lookup (rel : Entry -> list PaperRecord) (papers : list Entry) (key : pystr) :
  Aggregation.lookup_entry key (build_index rel papers) =
  match first_listed rel papers key with
  | Some r => Some (r, flat_map (Aggregation.entry_contribs rel key) papers)
  | None => None
  end.
Proof.
  rewrite <- build_index_meta, <- Aggregation.build_index_contribs.
  unfold Aggregation.contribs.
  destruct (Aggregation.lookup_entry key (build_index rel papers)) as [[m l] |]; reflexivity.
Qed.

Lemma side_entries (rel : Entry -> list PaperRecord) (papers : list Entry) (k : Z)
    (e : AggEntry) :
  In e (sort_entries (filter_index (build_index rel papers) (seed_keys papers) k)) <->
  entry_of rel papers k e.
Proof.
  rewrite Aggregation.sort_entries_In, Aggregation.filter_index_In.
  destruct (Partitions.build_index_wf rel papers) as [Hnd _].
  split.
  - intros (key & m & l & Hin & Hs & Hk & ->).
    apply (Partitions.In_lookup key (m, l) _ Hnd) in Hin.
    rewrite build_index_lookup in Hin. simpl.
    destruct (first_listed rel papers key) as [r |] eqn:Ef; [| discriminate].
    inversion Hin; subst. exists m. split; [exact Ef |].
    split; [intros Hk'; apply set_mem_In in Hk'; simpl in Hk'; congruence |].
    split; [exact Hk | reflexivity].
  - intros (r & Ef & Hs & Hk & He).
    exists (ae_key e), r, (flat_map (Aggregation.entry_contribs rel (ae_key e)) papers).
    split; [| split; [| split; [exact Hk | exact He]]].
    + apply Partitions.lookup_In. rewrite build_index_lookup, Ef. reflexivity.
    + destruct (set_mem (ae_key e) (seed_keys papers)) eqn:E; [| reflexivity].
      apply set_mem_In in E. contradiction.
Qed.

(** The entries of the two result lists, described from the input. *)
Theorem result_entries (papers : list Entry) (k_cited k_citing : Z) (e : AggEntry) :
  (In e (fst (analyze_citations papers k_cited k_citing)) <->
   entry_of references papers k_cited e) /\
  (In e (snd (analyze_citations papers k_cited k_citing)) <->
   entry_of cited_by papers k_citing e).
Proof. split; apply side_entries. Qed.

(** Both result lists are in the order of the sort key [(-count, title)]
    and hold each key at most once. *)
Theorem results_sorted (papers : list Entry) (k_cited k_citing : Z) :
  Sorted agg_le (fst (analyze_citations papers k_cited k_citing)) /\
  Sorted agg_le (snd (analyze_citations papers k_cited k_citing)).
Proof. split; apply sort_entries_sorted. Qed.

(** No key occurs twice in either result list. *)
Theorem results_keys_distinct (papers : list Entry) (k_cited k_citing : Z) :
  NoDup (map ae_key (fst (analyze_citations papers k_cited k_citing))) /\
  NoDup (map ae_key (snd (analyze_citations papers k_cited k_citing))).
Proof.
  simpl. split;
    (eapply Permutation_NoDup; [apply Permutation_map; symmetry; apply sort_entries_perm |];
     apply filter_index_NoDup, Partitions.build_index_wf).
Qed.

(** Raising a threshold only removes entries: an entry of a result list
    for the larger threshold is, unchanged, an entry of the list for the
    smaller one. *)
Theorem results_threshold_monotone (papers : list Entry) (k1 k2 k1' k2' : Z) (e : AggEntry) :
  (k1 <= k1')%Z -> (k2 <= k2')%Z ->
  (In e (fst (analyze_citations papers k1' k2')) -> In e (fst (analyze_citations papers k1 k2))) /\
  (In e (snd (analyze_citations papers k1' k2')) -> In e (snd (analyze_citations papers k1 k2))).
Proof.
  intros H1 H2. simpl. rewrite !Aggregation.sort_entries_In, !Aggregation.filter_index_In.
  split; intros (key & m & l & Hin & Hs & Hk & ->); exists key, m, l;
    (split; [exact Hin | split; [exact Hs | split; [lia | reflexivity]]]).
Qed.

Lemma results_threshold_monotone_witness :
  List.length (fst (analyze_citations Partitions.oa_doc 2 2)) = 1 /\
  (forall e, In e (fst (analyze_citations Partitions.oa_doc 2 2)) ->
             In e (fst (analyze_citations Partitions.oa_doc 1 1))).
Proof.
  split; [vm_compute; reflexivity |]. intros e.
  exact (proj1 (results_threshold_monotone Partitions.oa_doc 1 1 2 2 e
                  ltac:(lia) ltac:(lia))).
Defined.

End Results.

Module GraphNodes.
Import Visualize Common Partitions.

(** Seed [p], with metadata [m] whose key is [sk], lists under [rel] a
    record whose key is [key]. *)
Definition lists_under (rel : Entry -> list PaperRecord) (papers : list Entry)
    (sk key : pystr) : Prop :=
  exists p m r, In p papers /\ metadata p = Some m /\ get_paper_key m = Some sk /\
                In r (rel p) /\ get_paper_key r = Some key.

Lemma dict_set_In {V} (k k' : pystr) (v v' : V) (d : list (pystr * V)) :
  In (k, v) (dict_set k' v' d) -> (k = k' /\ v = v') \/ In (k, v) d.
Proof.
  induction d as [| [k'' v''] d IH]; simpl.
  - intros [E | []]. inversion E. auto.
  - destruct (str_eqb k'' k') eqn:E; simpl.
    + apply str_eqb_eq in E. subst. intros [E' | H]; [inversion E'; auto | auto].
    + intros [E' | H]; [auto |]. destruct (IH H); auto.
Qed.

Lemma threshold_In (idx : VIndex) (seeds : list (pystr * Node)) (k : Z) (key : pystr) (n : Node) :
  In (key, n) (threshold idx seeds k) ->
  exists m s, In (key, (m, s)) idx /\ (k <= Z.of_nat (List.length s))%Z /\
    dict_mem key seeds = false /\
    n = mkNode key (title m) (authors m) (year m) (venue m) (Some (List.length s)).
Proof.
  unfold threshold.
  enough (H : forall acc, In (key, n) (fold_left (fun acc '(key, (m, s)) =>
       if (k <=? Z.of_nat (List.length s))%Z && negb (dict_mem key seeds) then
         dict_set key (mkNode key (title m) (authors m) (year m) (venue m)
                                   (Some (List.length s))) acc
       else acc) idx acc) ->
    In (key, n) acc \/
    exists m s, In (key, (m, s)) idx /\ (k <= Z.of_nat (List.length s))%Z /\
      dict_mem key seeds = false /\
      n = mkNode key (title m) (authors m) (year m) (venue m) (Some (List.length s)))
    by (intros Hin; destruct (H [] Hin) as [[] | R]; exact R).
  induction idx as [| [k' [m s]] idx IH]; intros acc Hin; simpl in Hin; [left; exact Hin |].
  destruct (IH _ Hin) as [H | (m' & s' & Hin' & R)]; [| right; exists m', s'; split; [right; exact Hin' | exact R]].
  destruct ((k <=? Z.of_nat (List.length s))%Z && negb (dict_mem k' seeds)) eqn:E;
    [| left; exact H].
  apply dict_set_In in H. destruct H as [[-> ->] | H]; [| left; exact H].
  apply andb_true_iff in E. destruct E as [E1 E2]. apply Z.leb_le in E1.
  apply negb_true_iff in E2. right. exists m, s.
  split; [left; reflexivity | split; [exact E1 | split; [exact E2 | reflexivity]]].
Qed.

Lemma seeds_for_In (key x : pystr) (ps : list (pystr * pystr)) :
  In x (seeds_for key ps) <-> In (x, key) ps.
Proof.
  unfold seeds_for. rewrite in_map_iff. split.
  - intros [[a b] [<- Hin]]. apply filter_In in Hin. destruct Hin as [Hin E].
    simpl in E. apply str_eqb_eq in E. subst. exact Hin.
  - intros Hin. exists (x, key). split; [reflexivity |]. apply filter_In.
    split; [exact Hin | apply str_eqb_refl].
Qed.

Lemma vpairs_In (rel : Entry -> list PaperRecord) (papers : list Entry) (sk key : pystr) :
  In (sk, key) (vpairs rel papers) <-> lists_under rel papers sk key.
Proof.
  unfold vpairs, lists_under. rewrite in_flat_map. split.
  - intros [p [Hp Hin]]. unfold epairs in Hin.
    destruct (metadata p) as [m |] eqn:Em; [| destruct Hin].
    destruct (get_paper_key m) as [sk' |] eqn:Ek; [| destruct Hin].
    unfold pairs_of in Hin. apply in_flat_map in Hin. destruct Hin as [r [Hr Hin]].
    destruct (get_paper_key r) as [k |] eqn:Er; [| destruct Hin].
    destruct Hin as [E | []]. inversion E; subst. exists p, m, r. auto.
  - intros (p & m & r & Hp & Em & Ek & Hr & Er). exists p. split; [exact Hp |].
    unfold epairs. rewrite Em, Ek. unfold pairs_of. apply in_flat_map.
    exists r. rewrite Er. split; [exact Hr | left; reflexivity].
Qed.

Lemma set_add_all_spec (l s : list pystr) :
  NoDup s -> NoDup (set_add_all l s) /\ (forall x, In x (set_add_all l s) <-> In x l \/ In x s).
Proof.
  revert s. induction l as [| y l IH]; intros s Hs; simpl.
  - split; [exact Hs | intuition].
  - destruct (IH (set_add y s) (set_add_NoDup y s Hs)) as [H1 H2]. split; [exact H1 |].
    intros x. rewrite H2, set_add_In. intuition.
Qed.

Lemma graph_side (papers : list Entry) (rel : Entry -> list PaperRecord) (vidx : VIndex)
    (k : Z) (key : pystr) (n : Node) :
  gcontribs key vidx = set_add_all (seeds_for key (vpairs rel papers)) [] -> wf vidx ->
  In (key, n) (threshold vidx (seed_papers papers) k) ->
  n_key n = key /\ dict_mem key (seed_papers papers) = false /\
  exists S, NoDup S /\ (forall x, In x S <-> lists_under rel papers x key) /\
    n_count n = Some (List.length S) /\ (k <= Z.of_nat (List.length S))%Z.
Proof.
  intros Hc Hw Hin. apply threshold_In in Hin. destruct Hin as (m & s & Hin & Hk & Hs & ->).
  simpl. split; [reflexivity |]. split; [exact Hs |].
  assert (Es : gcontribs key vidx = s).
  { unfold gcontribs. rewrite (In_lookup key (m, s) vidx (proj1 Hw) Hin). reflexivity. }
  destruct (set_add_all_spec (seeds_for key (vpairs rel papers)) [] (NoDup_nil _)) as [N M].
  rewrite <- Hc, Es in N, M. exists s. split; [exact N |]. split; [| split; [reflexivity | exact Hk]].
  intros x. rewrite M, seeds_for_In, vpairs_In. simpl. tauto.
Qed.

(** The count of a node of the cited and citing partitions of the graph. *)
Theorem graph_counts (papers : list Entry) (k_cited k_citing : Z) (key : pystr) (n : Node) :
  let g := analyze_for_graph papers k_cited k_citing in
  (In (key, n) (g_cited_papers g) ->
   n_key n = key /\ dict_mem key (g_seed_papers g) = false /\
   exists S, NoDup S /\ (forall x, In x S <-> lists_under references papers x key) /\
     n_count n = Some (List.length S) /\ (k_cited <= Z.of_nat (List.length S))%Z) /\
  (In (key, n) (g_citing_papers g) ->
   n_key n = key /\ dict_mem key (g_seed_papers g) = false /\
   exists S, NoDup S /\ (forall x, In x S <-> lists_under cited_by papers x key) /\
     n_count n = Some (List.length S) /\ (k_citing <= Z.of_nat (List.length S))%Z).
Proof.
  intros g. unfold g, analyze_for_graph. simpl.
  destruct (loop_spec papers (mkLoop [] [] []) key) as [L1 [L2 [L3 L4]]].
  assert (W : wf ([] : VIndex)) by (split; constructor).
  split; intros Hin; eapply graph_side; eauto.
Qed.

Lemma ref_fold_edges (sk : pystr) (rs : list PaperRecord) (st : LoopState) a b t :
  In (a, b, t) (ls_edges (fold_left (ref_step sk) rs st)) ->
  In (a, b, t) (ls_edges st) \/
  (a = sk /\ t = cites /\ exists r, In r rs /\ get_paper_key r = Some b).
Proof.
  revert st. induction rs as [| r rs IH]; intros st Hin; simpl in Hin; [left; exact Hin |].
  destruct (IH _ Hin) as [H | (-> & -> & r' & Hr' & E)];
    [| right; split; [reflexivity | split; [reflexivity | exists r'; split; [right; exact Hr' | exact E]]]].
  unfold ref_step in H. destruct (get_paper_key r) as [k |] eqn:Er; [| left; exact H].
  simpl in H. apply in_app_iff in H. destruct H as [H | [E | []]]; [left; exact H |].
  inversion E; subst. right. split; [reflexivity | split; [reflexivity |]].
  exists r. split; [left; reflexivity | exact Er].
Qed.

Lemma cit_fold_edges (sk : pystr) (cs : list PaperRecord) (st : LoopState) a b t :
  In (a, b, t) (ls_edges (fold_left (cit_step sk) cs st)) ->
  In (a, b, t) (ls_edges st) \/
  (b = sk /\ t = cites /\ exists c, In c cs /\ get_paper_key c = Some a).
Proof.
  revert st. induction cs as [| c cs IH]; intros st Hin; simpl in Hin; [left; exact Hin |].
  destruct (IH _ Hin) as [H | (-> & -> & c' & Hc' & E)];
    [| right; split; [reflexivity | split; [reflexivity | exists c'; split; [right; exact Hc' | exact E]]]].
  unfold cit_step in H. destruct (get_paper_key c) as [k |] eqn:Ec; [| left; exact H].
  simpl in H. apply in_app_iff in H. destruct H as [H | [E | []]]; [left; exact H |].
  inversion E; subst. right. split; [reflexivity | split; [reflexivity |]].
  exists c. split; [left; reflexivity | exact Ec].
Qed.

Lemma loop_edges (papers : list Entry) (st : LoopState) a b t :
  In (a, b, t) (ls_edges (fold_left process_paper papers st)) ->
  In (a, b, t) (ls_edges st) \/
  (t = cites /\ (lists_under references papers a b \/ lists_under cited_by papers b a)).
Proof.
  revert st. induction papers as [| p ps IH]; intros st Hin; simpl in Hin; [left; exact Hin |].
  assert (Mono : forall x y, lists_under references ps x y \/ lists_under cited_by ps y x ->
                 lists_under references (p :: ps) x y \/ lists_under cited_by (p :: ps) y x).
  { intros x y [(p' & m & r & Hp & R) | (p' & m & r & Hp & R)];
      [left | right]; exists p', m, r; split; [right; exact Hp | exact R | right; exact Hp | exact R]. }
  destruct (IH _ Hin) as [H | [Ht R]]; [| right; split; [exact Ht | apply Mono, R]].
  rewrite process_paper_eq in H.
  destruct (metadata p) as [m |] eqn:Em; [| left; exact H].
  destruct (get_paper_key m) as [sk |] eqn:Ek; [| left; exact H].
  apply cit_fold_edges in H. destruct H as [H | (-> & -> & c & Hc & Ec)].
  - apply ref_fold_edges in H. destruct H as [H | (-> & -> & r & Hr & Er)]; [left; exact H |].
    right. split; [reflexivity |]. left. exists p, m, r. simpl. auto.
  - right. split; [reflexivity |]. right. exists p, m, c. simpl. auto.
Qed.

Lemma seed_papers_mem (papers : list Entry) (key : pystr) :
  (exists p m, In p papers /\ metadata p = Some m /\ get_paper_key m = Some key) ->
  dict_mem key (seed_papers papers) = true.
Proof.
  unfold seed_papers.
  enough (H : forall acc, dict_mem key acc = true \/
                (exists p m, In p papers /\ metadata p = Some m /\ get_paper_key m = Some key) ->
    dict_mem key (fold_left (fun acc paper =>
       match metadata paper with
       | Some m =>
           match get_paper_key m with
           | Some key => dict_set key (mkNode key (title m) (authors m) (year m) (venue m) None) acc
           | None => acc
           end
       | None => acc
       end) papers acc) = true) by (intros R; apply H; right; exact R).
  induction papers as [| p ps IH]; intros acc Hor; simpl.
  - destruct Hor as [H | (p & m & [] & _)]. exact H.
  - apply IH. destruct Hor as [H | (p' & m & [-> | Hp] & Em & Ek)].
    + left. destruct (metadata p) as [m |]; [| exact H].
      destruct (get_paper_key m) as [k |]; [| exact H].
      rewrite GraphEdges.dict_mem_In, dict_set_keys. right. apply GraphEdges.dict_mem_In, H.
    + left. rewrite Em, Ek. rewrite GraphEdges.dict_mem_In, dict_set_keys. left. reflexivity.
    + right. exists p', m. auto.
Qed.

(** Every edge of the graph comes from one listing by a seed: a reference
    edge starts at the listing seed, a citation edge ends at it. *)
Theorem graph_edges_from_listings (papers : list Entry) (k_cited k_citing : Z)
    (src tgt t : pystr) :
  let g := analyze_for_graph papers k_cited k_citing in
  In (src, tgt, t) (g_edges g) ->
  t = cites /\
  ((dict_mem src (g_seed_papers g) = true /\ lists_under references papers src tgt) \/
   (dict_mem tgt (g_seed_papers g) = true /\ lists_under cited_by papers tgt src)).
Proof.
  intros g Hin. unfold g, analyze_for_graph in Hin. simpl in Hin.
  apply GraphEdges.dedup_edges_In, filter_In in Hin. destruct Hin as [Hin _].
  apply loop_edges in Hin. destruct Hin as [[] | [Ht R]]. split; [exact Ht |].
  unfold g, analyze_for_graph. simpl.
  destruct R as [R | R]; [left | right]; split; try exact R;
    apply seed_papers_mem; destruct R as (p & m & r & Hp & Em & Ek & _); exists p, m; auto.
Qed.

Lemma graph_counts_witness :
  exists S, NoDup S /\
    (forall x, In x S <-> lists_under references oa_doc x (lit "openalex:wx")) /\
    List.length S = 2.
Proof.
  assert (Hin : In (lit "openalex:wx", mkNode (lit "openalex:wx") [] [] None [] (Some 2))
                   (g_cited_papers (analyze_for_graph oa_doc 2 2)))
    by (vm_compute; left; reflexivity).
  pose proof (graph_counts oa_doc 2 2 (lit "openalex:wx")
                (mkNode (lit "openalex:wx") [] [] None [] (Some 2))) as G.
  cbv zeta in G. destruct (proj1 G Hin) as [_ [_ [S [H1 [H2 [H3 _]]]]]].
  exists S. split; [exact H1 | split; [exact H2 |]].
  cbn in H3. injection H3 as E. symmetry. exact E.
Defined.

Lemma graph_edges_from_listings_witness :
  In (lit "openalex:wa", lit "openalex:wx", cites) (g_edges (analyze_for_graph oa_doc 2 2)) /\
  lists_under references oa_doc (lit "openalex:wa") (lit "openalex:wx").
Proof.
  assert (Hin : In (lit "openalex:wa", lit "openalex:wx", cites)
                   (g_edges (analyze_for_graph oa_doc 2 2)))
    by (vm_compute; left; reflexivity).
  split; [exact Hin |].
  destruct (graph_edges_from_listings oa_doc 2 2 _ _ _ Hin) as [_ [[_ H] | [Hs _]]];
    [exact H |].
  vm_compute in Hs. discriminate Hs.
Defined.

End GraphNodes.

Module TextProps.
Import Common FetchText.

Lemma is_space_lower (c : ascii) : is_space (lower_char c) = is_space c.
Proof. destruct c as [[] [] [] [] [] [] [] []]; reflexivity. Qed.

Lemma is_digit_lower (c : ascii) : Analyze.is_digit (lower_char c) = Analyze.is_digit c.
Proof. destruct c as [[] [] [] [] [] [] [] []]; reflexivity. Qed.

Lemma lower_digit (c : ascii) : Analyze.is_digit c = true -> lower_char c = c.
Proof. destruct c as [[] [] [] [] [] [] [] []]; first [reflexivity | discriminate]. Qed.

Lemma py_lower_app (s t : pystr) : py_lower (s ++ t) = py_lower s ++ py_lower t.
Proof. apply map_app. Qed.

Lemma length_py_lower (s : pystr) : List.length (py_lower s) = List.length s.
Proof. apply length_map. Qed.

Lemma strip_prefix_app (p s : pystr) : Analyze.strip_prefix p (p ++ s) = Some s.
Proof.
  induction p as [| c p IH]; simpl; [reflexivity |].
  destruct (ascii_dec c c) as [_ | n]; [exact IH | congruence].
Qed.

(** A string without whitespace at its two ends is left alone by [strip]. *)
Lemma py_strip_id (s : pystr) :
  (forall c s', s = c :: s' -> is_space c = false) ->
  (s = [] \/ is_space (last s sp) = false) ->
  py_strip s = s.
Proof.
  intros Hh Ht. unfold py_strip.
  assert (E1 : drop_ws s = s).
  { destruct s as [| c s']; [reflexivity |]. simpl. rewrite (Hh c s' eq_refl). reflexivity. }
  rewrite E1. destruct Ht as [-> | Ht]; [reflexivity |].
  destruct s as [| c s'] using rev_ind; [reflexivity |].
  rewrite last_last in Ht. rewrite rev_app_distr. cbn [rev app drop_ws]. rewrite Ht.
  cbn [rev]. rewrite rev_involutive. reflexivity.
Qed.

Lemma nospace_lower (q : pystr) (p : pystr) :
  py_lower q = p -> forallb (fun c => negb (is_space c)) p = true ->
  Forall (fun c => is_space c = false) q.
Proof.
  intros <- H. induction q as [| c q IH]; constructor; simpl in H;
    apply andb_true_iff in H; destruct H as [H1 H2].
  - rewrite is_space_lower in H1. apply negb_true_iff, H1.
  - apply IH, H2.
Qed.

Lemma last_app_nonspace (q d : pystr) :
  q <> [] -> Forall (fun c => is_space c = false) q ->
  (d = [] \/ is_space (last d sp) = false) -> is_space (last (q ++ d) sp) = false.
Proof.
  intros Hq Hf [-> | Hd].
  - rewrite app_nil_r. destruct q as [| c q'] using rev_ind; [congruence |].
    rewrite last_last. rewrite Forall_app in Hf. destruct Hf as [_ Hf]. inversion Hf. assumption.
  - destruct d as [| c d'] using rev_ind; [simpl in Hd; discriminate |].
    rewrite app_assoc, !last_last. rewrite last_last in Hd. exact Hd.
Qed.

Lemma skipn_length_app (q d : pystr) : skipn (List.length q) (q ++ d) = d.
Proof. induction q as [| c q IH]; [reflexivity | exact IH]. Qed.

(** [normalize_doi] removes one URL or [doi:] prefix, in any letter case,
    from a DOI without trailing whitespace; what follows it is kept as is,
    even when it starts with a prefix again. *)
Theorem normalize_doi_prefix (q d : pystr) :
  In (py_lower q) doi_prefixes ->
  (d = [] \/ is_space (last d sp) = false) ->
  normalize_doi (q ++ d) = d.
Proof.
  intros Hq Hd.
  assert (Hns : Forall (fun c => is_space c = false) q).
  { apply (nospace_lower q (py_lower q) eq_refl).
    destruct Hq as [E | [E | [E | []]]]; rewrite <- E; reflexivity. }
  assert (Hne : q <> []) by (intros ->; destruct Hq as [E | [E | [E | []]]]; discriminate).
  unfold normalize_doi. rewrite py_strip_id.
  - pose proof (length_py_lower q) as Hl.
    assert (L1 : py_lower (lit "https://doi.org/") = lit "https://doi.org/") by reflexivity.
    assert (L2 : py_lower (lit "http://doi.org/") = lit "http://doi.org/") by reflexivity.
    assert (L3 : py_lower (lit "doi:") = lit "doi:") by reflexivity.
    unfold doi_prefixes, strip_doi_prefix, startswith. rewrite py_lower_app, L1, L2, L3.
    destruct Hq as [E | [E | [E | []]]]; rewrite <- E in Hl; rewrite <- E; cbn in Hl; cbn -[skipn];
      rewrite Hl; apply skipn_length_app.
  - intros c s' E. destruct q as [| c' q']; [congruence |]. inversion E; subst.
    inversion Hns. assumption.
  - right. apply last_app_nonspace; assumption.
Qed.

Lemma split_nonnil (fuel : nat) (sep s : pystr) : split_sep_fuel fuel sep s <> [].
Proof.
  revert s. induction fuel as [| f IH]; intros s; simpl; [discriminate |].
  destruct s as [| c s']; [discriminate |].
  destruct (Analyze.strip_prefix sep (c :: s')); [discriminate |].
  destruct (split_sep_fuel f sep s'); discriminate.
Qed.

Lemma startswith_nil (sep : pystr) : sep <> [] -> startswith [] sep = false.
Proof. destruct sep; [congruence | reflexivity]. Qed.

(** A string without an occurrence of [sep] is one piece. *)
Lemma split_no_occ (sep s : pystr) (fuel : nat) :
  sep <> [] -> contains sep s = false -> List.length s < fuel ->
  split_sep_fuel fuel sep s = [s].
Proof.
  intros Hsep. revert fuel. induction s as [| c s IH]; intros fuel Hc Hf;
    (destruct fuel as [| f]; [simpl in Hf; lia |]); [reflexivity |].
  simpl in Hc. apply orb_false_iff in Hc. destruct Hc as [H1 H2].
  unfold startswith in H1. simpl split_sep_fuel.
  destruct (Analyze.strip_prefix sep (c :: s)); [discriminate |].
  rewrite (IH f H2) by (simpl in Hf; lia). reflexivity.
Qed.

Lemma split_occ (sep : pystr) (c : ascii) (s rest : pystr) (f : nat) :
  Analyze.strip_prefix sep (c :: s) = Some rest ->
  split_sep_fuel (S f) sep (c :: s) = [] :: split_sep_fuel f sep rest.
Proof. intros H. simpl. rewrite H. reflexivity. Qed.

(** A piece of text without the first character of [sep] goes to the
    front of the first piece. *)
Lemma split_pre (a : ascii) (sep' pre s : pystr) (f : nat) (w : pystr) (ws : list pystr) :
  ~ In a pre -> List.length pre <= f ->
  split_sep_fuel (f - List.length pre) (a :: sep') s = w :: ws ->
  split_sep_fuel f (a :: sep') (pre ++ s) = (pre ++ w) :: ws.
Proof.
  revert f. induction pre as [| c pre IH]; intros f Ha Hf E.
  - rewrite Nat.sub_0_r in E. exact E.
  - destruct f as [| f]; [simpl in Hf; lia |].
    simpl app. simpl split_sep_fuel.
    destruct (ascii_dec a c) as [-> | _]; [exfalso; apply Ha; left; reflexivity |].
    rewrite (IH f) by (try (intros H; apply Ha; right; exact H); simpl in Hf, E |- *; first [lia | exact E]).
    reflexivity.
Qed.

Lemma contains_app (needle p s : pystr) :
  contains needle s = true -> contains needle (p ++ s) = true.
Proof.
  intros H. induction p as [| c p IH]; [exact H |]. simpl. rewrite IH. apply orb_true_r.
Qed.

Lemma normalize_doi_arxiv (id : pystr) :
  (id = [] \/ is_space (last id sp) = false) ->
  normalize_doi (lit "10.48550/arXiv." ++ id) = lit "10.48550/arXiv." ++ id.
Proof.
  intros Hid. unfold normalize_doi. rewrite py_strip_id.
  - assert (L1 : py_lower (lit "https://doi.org/") = lit "https://doi.org/") by reflexivity.
    assert (L2 : py_lower (lit "http://doi.org/") = lit "http://doi.org/") by reflexivity.
    assert (L3 : py_lower (lit "doi:") = lit "doi:") by reflexivity.
    assert (L4 : py_lower (lit "10.48550/arXiv.") = lit "10.48550/arxiv.") by reflexivity.
    unfold doi_prefixes, strip_doi_prefix, startswith. rewrite py_lower_app, L1, L2, L3, L4.
    reflexivity.
  - intros c s' E. inversion E. reflexivity.
  - right. apply last_app_nonspace; [discriminate | | exact Hid].
    repeat constructor.
Qed.

(** The fetcher recovers the arXiv id from a DOI of the arXiv form,
    written bare or behind one of the prefixes of [normalize_doi], when the
    id does not itself contain [arXiv.] and has no trailing whitespace. *)
Theorem extract_arxiv_id_roundtrip (q id : pystr) :
  (q = [] \/ In (py_lower q) doi_prefixes) ->
  contains (lit "arXiv.") id = false ->
  (id = [] \/ is_space (last id sp) = false) ->
  extract_arxiv_id (q ++ lit "10.48550/arXiv." ++ id) = Some id.
Proof.
  intros Hq Hc Hid.
  assert (Hn : normalize_doi (q ++ lit "10.48550/arXiv." ++ id) = lit "10.48550/arXiv." ++ id).
  { destruct Hq as [-> | Hq]; [apply normalize_doi_arxiv, Hid |].
    apply normalize_doi_prefix; [exact Hq |]. right.
    apply last_app_nonspace; [discriminate | repeat constructor | exact Hid]. }
  unfold extract_arxiv_id. rewrite Hn.
  assert (Hl : contains (lit "arxiv") (py_lower (lit "10.48550/arXiv." ++ id)) = true).
  { rewrite py_lower_app.
    change (py_lower (lit "10.48550/arXiv.")) with (lit "10.48550/" ++ lit "arxiv" ++ lit ".").
    rewrite <- app_assoc. apply contains_app. simpl. reflexivity. }
  rewrite Hl.
  assert (Hs : py_split_sep (lit "arXiv.") (lit "10.48550/arXiv." ++ id) = [lit "10.48550/"; id]).
  { unfold py_split_sep.
    change (lit "10.48550/arXiv." ++ id) with (lit "10.48550/" ++ lit "arXiv." ++ id).
    change (lit "arXiv.") with ("a"%char :: lit "rXiv.").
    apply (split_pre "a"%char (lit "rXiv.") (lit "10.48550/") _ _ [] [id]).
    - simpl. intuition discriminate.
    - rewrite !length_app. simpl. lia.
    - match goal with |- split_sep_fuel ?F _ _ = _ =>
        replace F with (S (6 + List.length id)) by (cbn; lia) end.
      cbn [app].
      rewrite (split_occ _ _ _ id) by apply (strip_prefix_app ("a"%char :: lit "rXiv.") id).
      rewrite split_no_occ.
      + reflexivity.
      + discriminate.
      + exact Hc.
      + lia. }
  rewrite Hs. reflexivity.
Qed.

(** The split of [extract_arxiv_id] is case-sensitive: a normalized DOI
    without the exact text [arXiv.] gives no id, whatever case its
    [arxiv] is written in. *)
Theorem extract_arxiv_id_needs_arXiv (doi : pystr) :
  contains (lit "arXiv.") (normalize_doi doi) = false -> extract_arxiv_id doi = None.
Proof.
  intros Hc. unfold extract_arxiv_id.
  destruct (contains (lit "arxiv") (py_lower (normalize_doi doi))); [| reflexivity].
  unfold py_split_sep. rewrite split_no_occ; [reflexivity | discriminate | exact Hc | lia].
Qed.

Lemma span_digits_app (a s : pystr) :
  forallb Analyze.is_digit a = true ->
  (s = [] \/ exists c r, s = c :: r /\ Analyze.is_digit c = false) ->
  Analyze.span_digits (a ++ s) = (a, s).
Proof.
  intros Ha Hs. induction a as [| c a IH]; simpl.
  - destruct Hs as [-> | (c & r & -> & Hc)]; [reflexivity |]. simpl. rewrite Hc. reflexivity.
  - simpl in Ha. apply andb_true_iff in Ha. destruct Ha as [Hc Ha].
    rewrite Hc, (IH Ha). reflexivity.
Qed.

Lemma py_lower_digits (a : pystr) : forallb Analyze.is_digit a = true -> py_lower a = a.
Proof.
  induction a as [| c a IH]; simpl; [reflexivity |].
  intros H. apply andb_true_iff in H. destruct H as [H1 H2].
  rewrite (lower_digit c H1), (IH H2). reflexivity.
Qed.

Lemma arxiv_search_at (s g : pystr) :
  Analyze.arxiv_match_at s = Some g -> Analyze.arxiv_search s = Some g.
Proof. destruct s; simpl; intros H; rewrite H; reflexivity. Qed.

(** The analysis script recovers [<digits>.<digits>] from a DOI that starts
    with [10.48550/arxiv.] in any letter case, the digit runs being taken
    whole. *)
Theorem extract_arxiv_id_from_doi_roundtrip (q a b rest : pystr) :
  py_lower q = lit "10.48550/arxiv." ->
  a <> [] -> b <> [] ->
  forallb Analyze.is_digit a = true -> forallb Analyze.is_digit b = true ->
  (rest = [] \/ exists c r, rest = c :: r /\ Analyze.is_digit c = false) ->
  Analyze.extract_arxiv_id_from_doi (q ++ a ++ ["."%char] ++ b ++ rest) =
  Some (a ++ ["."%char] ++ b).
Proof.
  intros Hq Ha Hb Hda Hdb Hr.
  unfold Analyze.extract_arxiv_id_from_doi.
  assert (Ht : truthy_str (q ++ a ++ ["."%char] ++ b ++ rest) = true)
    by (destruct q; [discriminate | reflexivity]).
  rewrite Ht. unfold negb.
  rewrite !py_lower_app, Hq, (py_lower_digits a Hda),
    (py_lower_digits b Hdb).
  apply arxiv_search_at. unfold Analyze.arxiv_match_at.
  rewrite strip_prefix_app.
  rewrite (span_digits_app a) by (first [exact Hda | right; exists "."%char; eexists; split; reflexivity]).
  destruct a as [| a0 a']; [congruence |].
  simpl py_lower. cbn [app].
  destruct (ascii_dec "." ".") as [_ | n]; [| congruence].
  rewrite span_digits_app.
  - destruct b; [congruence | reflexivity].
  - exact Hdb.
  - destruct Hr as [-> | (c0 & r & -> & Hc0)]; [left; reflexivity |].
    right. exists (lower_char c0), (py_lower r). split; [reflexivity |].
    rewrite is_digit_lower. exact Hc0.
Qed.

Lemma normalize_doi_prefix_witness :
  normalize_doi (lit "HTTPS://DOI.ORG/" ++ lit "10.1/X") = lit "10.1/X".
Proof.
  apply normalize_doi_prefix; [vm_compute; left; reflexivity | right; reflexivity].
Defined.

Lemma extract_arxiv_id_roundtrip_witness :
  extract_arxiv_id (lit "doi:" ++ lit "10.48550/arXiv." ++ lit "2101.00001") =
  Some (lit "2101.00001").
Proof.
  apply extract_arxiv_id_roundtrip;
    [right; vm_compute; right; right; left; reflexivity | reflexivity | right; reflexivity].
Defined.

Lemma extract_arxiv_id_needs_arXiv_witness :
  extract_arxiv_id (lit "10.48550/ARXIV.2101.00001") = None.
Proof. apply extract_arxiv_id_needs_arXiv. vm_compute. reflexivity. Defined.

Lemma extract_arxiv_id_from_doi_roundtrip_witness :
  Analyze.extract_arxiv_id_from_doi
    (lit "10.48550/ARXIV." ++ lit "2101" ++ ["."%char] ++ lit "00001" ++ lit "v2") =
  Some (lit "2101" ++ ["."%char] ++ lit "00001").
Proof.
  apply extract_arxiv_id_from_doi_roundtrip;
    [vm_compute; reflexivity | discriminate | discriminate | vm_compute; reflexivity
    | vm_compute; reflexivity |].
  right. exists "v"%char, (lit "2"). split; reflexivity.
Defined.

End TextProps.

Module LabelProps.
Import Visualize.

(** With a bound of at least 3, [truncate_title] leaves a non-empty title of
    at most [max_len] characters as it is and cuts a longer one to exactly
    [max_len] characters, its first [max_len - 3] followed by [...]; with a
    bound below 3 a title longer than the bound comes out longer than the
    bound. *)
Theorem truncate_title_length (t : pystr) (m : Z) :
  t <> [] ->
  ((3 <= m ->
     (Z.of_nat (List.length t) <= m -> truncate_title t m = t) /\
     (m < Z.of_nat (List.length t) ->
        truncate_title t m = firstn (Z.to_nat (m - 3)) t ++ lit "..." /\
        Z.of_nat (List.length (truncate_title t m)) = m)) /\
  (m < 3 -> m < Z.of_nat (List.length t) ->
     m < Z.of_nat (List.length (truncate_title t m))))%Z.
Proof.
  intros Ht. unfold truncate_title.
  assert (Htr : truthy_str t = true) by (destruct t; [congruence | reflexivity]).
  rewrite Htr. cbn [negb].
  split.
  - intros Hm. split.
    + intros Hl. apply Z.leb_le in Hl. rewrite Hl. reflexivity.
    + intros Hl. assert (Hl' : (Z.of_nat (List.length t) <=? m)%Z = false) by (apply Z.leb_gt; lia).
      rewrite Hl'. unfold py_slice_to.
      assert (Hp : (0 <=? m - 3)%Z = true) by (apply Z.leb_le; lia).
      rewrite Hp. split; [reflexivity |].
      rewrite length_app, length_firstn. change (List.length (lit "...")) with 3.
      rewrite Nat.min_l by lia. lia.
  - intros Hm Hl. assert (Hl' : (Z.of_nat (List.length t) <=? m)%Z = false) by (apply Z.leb_gt; lia).
    rewrite Hl', length_app. change (List.length (lit "...")) with 3. lia.
Qed.

(** The label of a seed paper is never empty and has at most 60 characters;
    it is the paper's title when that is non-empty and at most 60 characters
    long, and otherwise starts with the title's first 57 characters. *)
Theorem seed_label_bounds (paper : Entry) :
  let l := Analyze.get_seed_paper_label paper in
  1 <= List.length l <= 60 /\
  forall m, metadata paper = Some m -> title m <> [] ->
    (List.length (title m) <= 60 -> l = title m) /\
    (60 < List.length (title m) -> l = firstn 57 (title m) ++ lit "...").
Proof.
  cbn zeta. unfold Analyze.get_seed_paper_label. split.
  - destruct (metadata paper) as [m |]; [| cbn; lia].
    destruct (truthy_str (title m)) eqn:Et; [| cbn; lia].
    destruct (60 <? List.length (title m)) eqn:El.
    + unfold py_take. rewrite length_app, length_firstn. change (List.length (lit "...")) with 3.
      apply Nat.ltb_lt in El. lia.
    + apply Nat.ltb_ge in El. destruct (title m); [discriminate | cbn in *; lia].
  - intros m Hm Ht. rewrite Hm.
    assert (Htr : truthy_str (title m) = true) by (destruct (title m); [congruence | reflexivity]).
    rewrite Htr. split.
    + intros Hl. assert (E : (60 <? List.length (title m)) = false) by (apply Nat.ltb_ge; lia).
      rewrite E. reflexivity.
    + intros Hl. assert (E : (60 <? List.length (title m)) = true) by (apply Nat.ltb_lt; lia).
      rewrite E. reflexivity.
Qed.

Definition long_title : pystr := lit "Attention Is All You Need".

Lemma truncate_title_length_witness :
  truncate_title long_title 10 = lit "Attenti..." /\
  Z.of_nat (List.length (truncate_title long_title 10)) = 10%Z /\
  (2 < Z.of_nat (List.length (truncate_title long_title 2)))%Z.
Proof.
  destruct (truncate_title_length long_title 10 ltac:(discriminate)) as [H _].
  destruct (truncate_title_length long_title 2 ltac:(discriminate)) as [_ H'].
  split; [vm_compute; reflexivity |].
  split; [apply (proj2 (proj2 (H ltac:(lia)) ltac:(vm_compute; reflexivity))) |].
  apply H'; [lia | vm_compute; reflexivity].
Defined.

Definition long_seed : Entry :=
  mkEntry (lit "10.1/a")
    (Some (Aggregation.titled
             "A Study of Citation Graphs Built From Two Bibliographic Sources at Once"))
    [] [].

Lemma seed_label_bounds_witness :
  Analyze.get_seed_paper_label long_seed =
  firstn 57 (lit "A Study of Citation Graphs Built From Two Bibliographic Sources at Once")
    ++ lit "..." /\
  List.length (Analyze.get_seed_paper_label long_seed) = 60.
Proof.
  pose proof (seed_label_bounds long_seed) as B. cbv zeta in B.
  destruct B as [_ B].
  split; [| vm_compute; reflexivity].
  apply (proj2 (B _ eq_refl ltac:(discriminate))). vm_compute. lia.
Defined.

End LabelProps.

Module MergeOut.
Import Fetch Common Merge MergeDup MergeProps.

Lemma seen_firsts (h : Heap) (l : list (option addr)) :
  Forall (fun a => a < List.length h) (somes l) ->
  snd (fold_left merge_step l (h, [])) = map (fun a => (okey h a, a)) (firsts h (somes l)).
Proof.
  induction l as [| o l IH] using rev_ind; intros Hval; [reflexivity |].
  pose proof (minv_fold h l (valid_prefix h l o Hval)) as Hinv.
  specialize (IH (valid_prefix h l o Hval)).
  rewrite fold_left_app. cbn [fold_left].
  destruct o as [a |].
  2:{ rewrite somes_app, app_nil_r. destruct (fold_left merge_step l (h, [])). exact IH. }
  rewrite somes_app. cbn [somes]. rewrite firsts_snoc, existsb_find.
  destruct (fold_left merge_step l (h, [])) as [hl seen].
  pose proof (minv_key h l hl seen a Hinv) as Hk.
  cbn [merge_step snd] in IH |- *.
  rewrite Hk, IH, assoc_pairs.
  destruct (find _ (firsts h (somes l))); [reflexivity |].
  rewrite map_app. reflexivity.
Qed.

(** [merge_paper_lists] returns, in the order of [list1 + list2], the
    first record of each key, skipping [None] entries: no two returned
    records share a key and every input record has the key of a returned
    one.  The keys are those of the records before the call. *)
Theorem merge_output_order (h : Heap) (list1 list2 : list (option addr)) :
  Forall (fun a => a < List.length h) (somes (list1 ++ list2)) ->
  let out := snd (merge_paper_lists h list1 list2) in
  out = firsts h (somes (list1 ++ list2)) /\
  NoDup (map (okey h) out) /\
  (forall e, In e out -> In e (somes (list1 ++ list2))) /\
  (forall a, In a (somes (list1 ++ list2)) -> exists e, In e out /\ okey h e = okey h a).
Proof.
  intros Hval. cbn zeta.
  assert (E : snd (merge_paper_lists h list1 list2) = firsts h (somes (list1 ++ list2))).
  { unfold merge_paper_lists. pose proof (seen_firsts h _ Hval) as Hs.
    destruct (fold_left merge_step (list1 ++ list2) (h, [])) as [h' seen].
    cbn [snd] in Hs |- *. rewrite Hs, map_map. apply map_id. }
  rewrite E. split; [reflexivity |]. split; [apply firsts_keys_NoDup |].
  split; [apply firsts_In | apply firsts_cover].
Qed.

(** Merging does not change the key of a returned record: after the call
    the returned records still have pairwise distinct keys, each the key
    the record had before. *)
Theorem merge_keys_stable (h : Heap) (list1 list2 : list (option addr)) :
  Forall (fun a => a < List.length h) (somes (list1 ++ list2)) ->
  let (h', out) := merge_paper_lists h list1 list2 in
  (forall e, In e out -> get_paper_key (load h' e) e = okey h e) /\
  NoDup (map (fun e => get_paper_key (load h' e) e) out).
Proof.
  intros Hval.
  pose proof (minv_fold h (list1 ++ list2) Hval) as Hinv.
  pose proof (seen_firsts h _ Hval) as Hs.
  unfold merge_paper_lists.
  destruct (fold_left merge_step (list1 ++ list2) (h, [])) as [h' seen].
  cbn [snd] in Hs.
  assert (Hk : forall e, In e (map snd seen) -> get_paper_key (load h' e) e = okey h e)
    by (intros e _; exact (minv_key h _ h' seen e Hinv)).
  split; [exact Hk |].
  rewrite (map_ext_in _ (okey h) _ Hk).
  rewrite Hs, !map_map. cbn [snd]. apply firsts_keys_NoDup.
Qed.

(** A record that [merge_paper_lists] does not return is left as it was:
    the call writes only to the first record of each key. *)
Theorem merge_untouched (h : Heap) (list1 list2 : list (option addr)) (b : addr) :
  ~ In b (snd (merge_paper_lists h list1 list2)) ->
  load (fst (merge_paper_lists h list1 list2)) b = load h b.
Proof.
  unfold merge_paper_lists.
  pose proof (merge_fold_frame h (list1 ++ list2) (h, []) (fun _ _ => eq_refl)) as Hf.
  destruct (fold_left merge_step (list1 ++ list2) (h, [])) as [h' seen].
  exact (Hf b).
Qed.

Lemma merge_output_order_witness :
  snd (merge_paper_lists dup_heap [Some 0] [Some 1; None; Some 0]) =
    firsts dup_heap (somes ([Some 0] ++ [Some 1; None; Some 0])) /\
  firsts dup_heap (somes ([Some 0] ++ [Some 1; None; Some 0])) = [0].
Proof.
  assert (Hval : Forall (fun a => a < List.length dup_heap)
                   (somes ([Some 0] ++ [Some 1; None; Some 0])))
    by (simpl; repeat constructor).
  destruct (merge_output_order dup_heap [Some 0] [Some 1; None; Some 0] Hval) as [E _].
  split; [exact E | vm_compute; reflexivity].
Defined.

Lemma merge_keys_stable_witness :
  get_paper_key (load (fst (merge_paper_lists dup_heap [Some 0] [Some 1])) 0) 0 =
  okey dup_heap 0.
Proof.
  assert (Hval : Forall (fun a => a < List.length dup_heap) (somes ([Some 0] ++ [Some 1])))
    by (simpl; repeat constructor).
  pose proof (merge_keys_stable dup_heap [Some 0] [Some 1] Hval) as H.
  assert (Hin : In 0 (snd (merge_paper_lists dup_heap [Some 0] [Some 1])))
    by (vm_compute; left; reflexivity).
  revert H Hin. destruct (merge_paper_lists dup_heap [Some 0] [Some 1]) as [h' out].
  intros H Hin. exact (proj1 H 0 Hin).
Defined.

Lemma merge_untouched_witness :
  load (fst (merge_paper_lists dup_heap [Some 0] [Some 1])) 1 = s2_rec.
Proof.
  rewrite merge_untouched; [reflexivity |].
  vm_compute. intros [H | []]. discriminate H.
Defined.

End MergeOut.

Module Examples.
Import Analyze.
Example norm_ex1 :
  normalize_title (lit "  Deep  Learning: A-Survey ") = lit "deep learning a survey".
Proof. vm_compute. reflexivity. Qed.
End Examples.
